(** * CityTwin: the evaluation core of [app1.py]

    A shallow embedding of the geo utility ([haversine_km]), the evaluation
    engine ([evaluate_location]), the perimeter analyzer
    ([analyze_perimeter]) and the object registry ([add_object],
    [delete_selected], [move_selected], [get_selected_obj]).

    Python floats are IEEE 754 binary64 numbers and are modelled by Rocq's
    primitive floats.  The C mathematics library behind [math.sin],
    [math.cos], [math.asin] and [pow] is an interface ([Libm]); what CPython
    adds around it (the domain checks of the [math] module, the case analysis
    of [float.__pow__]) is written out.  A Python exception is an error
    result ([Raise]). *)

From Stdlib Require Import ZArith Floats Lia.
From stdpp Require Import base strings gmap list sorting.

Local Open Scope string_scope.
Set Warnings "-inexact-float".
Set Warnings "-clear-no-such-hyp".

(** ** Exceptions *)

Inductive pyerr : Type :=
  | ValueError
  | OverflowError.

Inductive exc (A : Type) : Type :=
  | Ok (a : A)
  | Raise (e : pyerr).
Arguments Ok {A} a.
Arguments Raise {A} e.

#[global] Instance exc_ret : MRet exc := @Ok.
#[global] Instance exc_bind : MBind exc := fun A B f m =>
  match m with
  | Ok a => f a
  | Raise e => Raise e
  end.

(** Evaluates [f] on the elements from left to right and stops at the first
    exception, as a list comprehension or a [for] loop does. *)
Fixpoint exc_map {A B : Type} (f : A -> exc B) (l : list A) : exc (list B) :=
  match l with
  | [] => Ok []
  | x :: l' => y ← f x; ys ← exc_map f l'; Ok (y :: ys)
  end.

(** ** The mathematics library *)

(** The C functions [sin], [cos], [asin] and [pow] of <math.h>: total
    functions on doubles (a domain error is a NaN result). *)
Class Libm : Type := {
  libm_sin : float -> float;
  libm_cos : float -> float;
  libm_asin : float -> float;
  libm_pow : float -> float -> float
}.

(** What the properties of the distance rely on: the values at zero fixed by
    Annex F of the C standard, the odd symmetry of the sine and the range of
    the cosine. *)
Class LibmSpec (M : Libm) : Prop := {
  libm_sin_zero : libm_sin 0%float = 0%float;
  libm_sin_opp : forall x, libm_sin (- x)%float = (- libm_sin x)%float;
  libm_asin_zero : libm_asin 0%float = 0%float;
  libm_cos_range : forall x, is_finite x = true ->
    (abs (libm_cos x) <=? 1)%float = true
}.

(** A first-order library (sin x = x, cos x = 1, asin x = x, pow x y = x * x
    for the only exponent the program uses), on which the definitions below
    can be run. *)
Definition small_angle_libm : Libm := {|
  libm_sin := fun x => x;
  libm_cos := fun _ => 1%float;
  libm_asin := fun x => x;
  libm_pow := fun x _ => (x * x)%float
|}.

(** CPython's [math_1] wrapper (Modules/mathmodule.c), with which [math.sin],
    [math.cos], [math.asin] and [math.sqrt] call the C function: a NaN result
    for a non-NaN argument, or an infinite result for a finite argument, is a
    [ValueError]. *)
Definition math_1 (func : float -> float) (x : float) : exc float :=
  let r := func x in
  if is_nan r && negb (is_nan x) then Raise ValueError
  else if is_infinity r && is_finite x then Raise ValueError
  else Ok r.

(** [math.radians]: [x * (pi / 180)]. *)
Definition degToRad : float :=
  Eval cbv in (0x1.921fb54442d18p+1 / 180)%float.

Definition math_radians (x : float) : float := (x * degToRad)%float.

(** [x ** 2] on a float: [float_pow] of Objects/floatobject.c at the exponent
    2.0 (positive, finite, an even integer).  [pow] is called on the absolute
    value, and an overflowing result is an [OverflowError]. *)
Definition float_pow2 `{Libm} (iv : float) : exc float :=
  if is_nan iv then Ok iv
  else if is_infinity iv then Ok (abs iv)
  else if (iv =? 0)%float then Ok 0%float
  else
    let iv' := if (iv <? 0)%float then (- iv)%float else iv in
    if (iv' =? 1)%float then Ok 1%float
    else
      let ix := libm_pow iv' 2%float in
      if is_infinity ix then Raise OverflowError else Ok ix.

(** ** Geo utility *)

(** The squared sine of half the difference of two angles in degrees, which
    [haversine_km] computes for the latitudes and for the longitudes. *)
Definition hav_term `{Libm} (a b : float) : exc float :=
  s ← math_1 libm_sin (math_radians (b - a) / 2)%float; float_pow2 s.

Definition haversine_km `{Libm} (lat1 lon1 lat2 lon2 : float) : exc float :=
  let R := 6371.0%float in
  let p1 := math_radians lat1 in
  let p2 := math_radians lat2 in
  let dphi := math_radians (lat2 - lat1)%float in
  let dl := math_radians (lon2 - lon1)%float in
  s1 ← math_1 libm_sin (dphi / 2)%float;
  q1 ← float_pow2 s1;
  c1 ← math_1 libm_cos p1;
  c2 ← math_1 libm_cos p2;
  s2 ← math_1 libm_sin (dl / 2)%float;
  q2 ← float_pow2 s2;
  let a := (q1 + c1 * c2 * q2)%float in
  r ← math_1 sqrt a;
  t ← math_1 libm_asin r;
  Ok (2 * R * t)%float.

(** ** Data model *)

Record CityObject : Type := {
  id : string;
  obj_type : string;
  lat : float;
  lon : float;
  params : gmap string float
}.

Definition housing : string := "Жилой комплекс".
Definition school : string := "Школа".
Definition park : string := "Парк".
Definition sport : string := "Спорткомплекс".
Definition industry : string := "Промышленный объект".
Definition bridge : string := "Мост".

(** The numeric parameters are kept as the floats that [float(...)] reads
    from them (the integer defaults are exact in binary64). *)
Definition DEFAULT_PARAMS : gmap string (gmap string float) :=
  list_to_map [
    (housing, list_to_map [("residents", 1500%float)]);
    (school, list_to_map [("capacity", 800%float)]);
    (park, list_to_map [("green_factor", 0.25%float)]);
    (sport, list_to_map [("visitors_per_day", 500%float)]);
    (industry, list_to_map [("emission", 120.0%float); ("filters_eff", 0.0%float)]);
    (bridge, list_to_map [("capacity_bonus", 200%float)])
  ].

Definition DEFAULT_CENTER : float * float := (49.9483, 82.6285)%float.

Definition ANALYSIS_RADIUS_KM : float := 1.5%float.

(** A coordinate whose latitude and longitude are numbers (neither a NaN
    nor an infinity). *)
Definition finite_coord (lat0 lon0 : float) : bool :=
  is_finite lat0 && is_finite lon0.

(** ** Evaluation engine *)

(** [min] over the distances: the first item is kept until a later one is
    strictly smaller. *)
Definition py_min (first : float) (rest : list float) : float :=
  fold_left (fun cur d => if (d <? cur)%float then d else cur) rest first.

(** The local function [nearest] of [evaluate_location]. *)
Definition nearest `{Libm} (lat0 lon0 : float) (objs : list CityObject)
    (t : string) : exc (option float) :=
  let candidates := filter (fun o => obj_type o = t) objs in
  ds ← exc_map (fun o => haversine_km lat0 lon0 (lat o) (lon o)) candidates;
  match ds with
  | [] => Ok None
  | d :: ds' => Ok (Some (py_min d ds'))
  end.

(** [x is not None and x <= k]. *)
Definition within (x : option float) (k : float) : bool :=
  match x with
  | Some d => (d <=? k)%float
  | None => false
  end.

Definition msg_first_point : string :=
  "Это первая точка — удобно начать моделирование с базы района.".
Definition msg_jobs : string :=
  "Плюс: создаёт рабочие места и экономическую активность.".
Definition msg_air : string :=
  "Минус: ухудшает качество воздуха вокруг (если нет фильтров).".
Definition msg_fallback : string :=
  "Расположение выглядит допустимым для MVP-модели.".

(** The two lists under construction, [(plus, minus)]. *)
Definition verdict : Type := (list string * list string)%type.

Definition plus_append (s : string) (v : verdict) : verdict :=
  ((v.1 ++ [s])%list, v.2).
Definition minus_append (s : string) (v : verdict) : verdict :=
  (v.1, (v.2 ++ [s])%list).

(** The rules of one category, applied to the empty lists. *)
Definition category_rules (t : string)
    (near_home near_school near_park near_ind : option float) : verdict :=
  let v : verdict := ([], []) in
  if bool_decide (t = housing) then
    let v :=
      match near_school with
      | None => minus_append "Поблизости нет школ — возможна перегрузка инфраструктуры." v
      | Some d =>
          if (d <=? 1.5)%float
          then plus_append "Школа относительно рядом — лучше доступность." v
          else minus_append "Школа далеко — возрастёт нагрузка на транспорт." v
      end in
    let v :=
      if within near_park 1.2%float
      then plus_append "Рядом парк — выше комфорт и качество среды." v
      else minus_append "Нет парка рядом — стоит добавить зелёную зону." v in
    if within near_ind 2.0%float
    then minus_append "Слишком близко к промзоне — риск хуже по экологии." v
    else plus_append "Достаточно далеко от промзоны — лучше по экологии." v
  else if bool_decide (t = school) then
    let v :=
      match near_home with
      | None => minus_append "Нет жилья рядом — школа может быть “в пустоте”." v
      | Some d =>
          if (d <=? 1.5)%float
          then plus_append "Рядом жильё — школа будет востребована и удобна." v
          else minus_append "Жильё далеко — детям придётся ездить, вырастет трафик." v
      end in
    if within near_ind 2.5%float
    then minus_append "Близко к промзоне — нежелательно для школьной среды." v
    else plus_append "Подальше от промзоны — лучше для здоровья/комфорта." v
  else if bool_decide (t = park) then
    let v :=
      if within near_home 1.5%float
      then plus_append "Рядом жильё — парк даст максимальную пользу жителям." v
      else plus_append "Парк улучшит район, но рядом с жильём эффект сильнее." v in
    if within near_ind 2.0%float
    then
      minus_append "Но шум/выбросы всё равно могут ощущаться."
        (plus_append "Рядом промзона — парк частично компенсирует эффект загрязнения." v)
    else plus_append "Чистая зона — парк усилит комфорт и привлекательность." v
  else if bool_decide (t = industry) then
    let v :=
      if within near_home 3.0%float
      then minus_append "Близко к жилью — риски по экологии и жалобы жителей." v
      else plus_append "Далеко от жилья — меньше конфликтов по экологии." v in
    let v :=
      if within near_school 3.5%float
      then minus_append "Близко к школе — нежелательное соседство." v
      else plus_append "Далеко от школ — лучше для социальной среды." v in
    minus_append msg_air (plus_append msg_jobs v)
  else if bool_decide (t = sport) then
    let v :=
      if within near_home 2.0%float
      then plus_append "Рядом жильё — удобный доступ для посетителей." v
      else minus_append "Далеко от жилья — посещаемость может быть ниже." v in
    if within near_park 1.5%float
    then plus_append "Рядом парк — хорошая связка для спорта и отдыха." v
    else plus_append "Можно дополнить рядом парком для более комфортной зоны." v
  else if bool_decide (t = bridge) then
    minus_append "Если нет разрыва маршрутов, эффект может быть слабее (в MVP это упрощено)."
      (plus_append "Мост обычно улучшает связанность и снижает объезды." v)
  else v.

Definition evaluate_location `{Libm} (t : string) (lat0 lon0 : float)
    (objs : list CityObject) : exc verdict :=
  near_home ← nearest lat0 lon0 objs housing;
  near_school ← nearest lat0 lon0 objs school;
  near_park ← nearest lat0 lon0 objs park;
  near_ind ← nearest lat0 lon0 objs industry;
  match objs with
  | [] => Ok ([msg_first_point], [])
  | _ :: _ =>
      let v := category_rules t near_home near_school near_park near_ind in
      match v.1 with
      | [] => Ok (plus_append msg_fallback v)
      | _ :: _ => Ok v
      end
  end.

(** ** Perimeter analyzer *)

Record perimeter : Type := {
  around : list (CityObject * float);
  counts : gmap string nat;
  residents : float;
  school_capacity : float;
  school_gap : float;
  industry_emission : float;
  parks : nat;
  radius_km : float
}.

(** The first loop of [analyze_perimeter]: the objects within the radius, in
    registry order, each with its distance. *)
Fixpoint collect_around `{Libm} (lat0 lon0 : float) (objs : list CityObject)
    (radius : float) : exc (list (CityObject * float)) :=
  match objs with
  | [] => Ok []
  | o :: objs' =>
      d ← haversine_km lat0 lon0 (lat o) (lon o);
      rest ← collect_around lat0 lon0 objs' radius;
      Ok (if (d <=? radius)%float then (o, d) :: rest else rest)
  end.

(** The second loop: [counts[t] = counts.get(t, 0) + 1]. *)
Definition count_types (l : list (CityObject * float)) : gmap string nat :=
  fold_left
    (fun (c : gmap string nat) (x : CityObject * float) =>
       <[obj_type x.1 := default 0 (c !! obj_type x.1) + 1]> c)
    l ∅.

(** [sum] over floats: the items are added from left to right to the start
    value 0.  (From CPython 3.12 on, [sum] also compensates the rounding
    errors of the additions; the properties below do not depend on how the
    items are added up.) *)
Definition py_sum (l : list float) : float :=
  fold_left add l 0%float.

(** [float(o.params.get(key, 0))]. *)
Definition param (o : CityObject) (key : string) : float :=
  default 0%float (params o !! key).

(** The items of the three generator expressions that are summed. *)
Definition residents_items (l : list (CityObject * float)) : list float :=
  map (fun x => param x.1 "residents")
    (filter (fun x : CityObject * float => obj_type x.1 = housing) l).

Definition capacity_items (l : list (CityObject * float)) : list float :=
  map (fun x => param x.1 "capacity")
    (filter (fun x : CityObject * float => obj_type x.1 = school) l).

Definition emission_items (l : list (CityObject * float)) : list float :=
  map (fun x => (param x.1 "emission" * (1.0 - param x.1 "filters_eff"))%float)
    (filter (fun x : CityObject * float => obj_type x.1 = industry) l).

(** [sorted(around, key=lambda x: x[1])]: a stable sort that compares the
    keys with [<].  An item goes in front of the first later item that is
    not strictly smaller. *)
Fixpoint insert_by_distance (x : CityObject * float)
    (l : list (CityObject * float)) : list (CityObject * float) :=
  match l with
  | [] => [x]
  | y :: l' =>
      if (y.2 <? x.2)%float then y :: insert_by_distance x l'
      else x :: y :: l'
  end.

Definition sorted_by_distance (l : list (CityObject * float))
    : list (CityObject * float) :=
  foldr insert_by_distance [] l.

(** Ascending order of the distances. *)
Definition dist_le (x y : CityObject * float) : Prop :=
  (x.2 <=? y.2)%float = true.

Definition analyze_perimeter `{Libm} (lat0 lon0 : float)
    (objs : list CityObject) (radius : float) : exc perimeter :=
  near ← collect_around lat0 lon0 objs radius;
  let counts := count_types near in
  let residents := py_sum (residents_items near) in
  let school_capacity := py_sum (capacity_items near) in
  let industry_emission := py_sum (emission_items near) in
  let parks := default 0 (counts !! park) in
  let school_need := (residents * 0.25)%float in
  let school_gap := (school_need - school_capacity)%float in
  Ok {|
    around := sorted_by_distance near;
    counts := counts;
    residents := residents;
    school_capacity := school_capacity;
    school_gap := school_gap;
    industry_emission := industry_emission;
    parks := parks;
    radius_km := radius
  |}.

(** ** Registry *)

(** The part of [st.session_state] that [init_state] sets up. *)
Record session_state : Type := {
  objects : list CityObject;
  mode : string;
  palette_selected : string;
  selected_id : option string;
  last_click : option (float * float)
}.

Definition init_state : session_state := {|
  objects := [];
  mode := "Добавить";
  palette_selected := housing;
  selected_id := None;
  last_click := None
|}.

Definition with_registry (st : session_state) (objs : list CityObject)
    (sel : option string) : session_state := {|
  objects := objs;
  mode := mode st;
  palette_selected := palette_selected st;
  selected_id := sel;
  last_click := last_click st
|}.

(** [not sid]: true of [None] and of the empty string. *)
Definition py_not (sid : option string) : bool :=
  match sid with
  | None => true
  | Some s => bool_decide (s = "")
  end.

(** [add_object]; [nid] is the identifier that [new_id()] draws. *)
Definition add_object (nid : string) (t : string) (lat0 lon0 : float)
    (st : session_state) : session_state :=
  let o := {|
    id := nid;
    obj_type := t;
    lat := lat0;
    lon := lon0;
    params := default ∅ (DEFAULT_PARAMS !! t)
  |} in
  with_registry st (objects st ++ [o])%list (Some (id o)).

Definition delete_selected (st : session_state) : bool * session_state :=
  let sid := selected_id st in
  if py_not sid then (false, st)
  else
    let before := length (objects st) in
    let objs' := filter (fun o => Some (id o) ≠ sid) (objects st) in
    let after := length objs' in
    let sel' :=
      match objs' with
      | o :: _ => Some (id o)
      | [] => None
      end in
    (bool_decide (after < before), with_registry st objs' sel').

(** The loop of [move_selected]: the first object with the identifier gets
    the coordinates; [None] when the loop ends without a match. *)
Fixpoint move_first (sid : option string) (lat0 lon0 : float)
    (objs : list CityObject) : option (list CityObject) :=
  match objs with
  | [] => None
  | o :: objs' =>
      if bool_decide (Some (id o) = sid) then
        Some ({| id := id o; obj_type := obj_type o; lat := lat0; lon := lon0;
                 params := params o |} :: objs')
      else (o ::.) <$> move_first sid lat0 lon0 objs'
  end.

Definition move_selected (lat0 lon0 : float) (st : session_state)
    : bool * session_state :=
  let sid := selected_id st in
  if py_not sid then (false, st)
  else
    match move_first sid lat0 lon0 (objects st) with
    | Some objs' => (true, with_registry st objs' sid)
    | None => (false, st)
    end.

Definition get_selected_obj (st : session_state) : option CityObject :=
  let sid := selected_id st in
  find (fun o => bool_decide (Some (id o) = sid)) (objects st).

(** The invariant of the registry: identifiers are unique and not empty
    ([new_id] returns ten hexadecimal digits), and the selected identifier,
    when set, is the identifier of an object of the sequence. *)
Definition selection_inv (st : session_state) : Prop :=
  match selected_id st with
  | None => True
  | Some sid => sid ∈ id <$> objects st
  end.

Definition ids_inv (st : session_state) : Prop :=
  NoDup (id <$> objects st) /\ Forall (fun o => id o ≠ "") (objects st).

Definition registry_inv (st : session_state) : Prop :=
  ids_inv st /\ selection_inv st.

(** The states that the handlers produce from the initial one: a click in
    add mode (with the fresh identifier that [new_id] is to draw), the
    delete button, a click in move mode, and the select box, which selects
    an object of the sequence. *)
Inductive reachable : session_state -> Prop :=
  | reachable_init : reachable init_state
  | reachable_add nid t lat0 lon0 st :
      reachable st -> nid ≠ "" -> nid ∉ id <$> objects st ->
      reachable (add_object nid t lat0 lon0 st)
  | reachable_delete st :
      reachable st -> reachable (delete_selected st).2
  | reachable_move lat0 lon0 st :
      reachable st -> reachable (move_selected lat0 lon0 st).2
  | reachable_select o st :
      reachable st -> o ∈ objects st ->
      reachable (with_registry st (objects st) (Some (id o))).

#[global] Instance selection_inv_dec st : Decision (selection_inv st).
Proof. unfold selection_inv. destruct (selected_id st); apply _. Defined.

#[global] Instance ids_inv_dec st : Decision (ids_inv st).
Proof. unfold ids_inv. apply _. Defined.

#[global] Instance registry_inv_dec st : Decision (registry_inv st).
Proof. unfold registry_inv. apply _. Defined.

(** ** Sample data

    A registry of two objects near the default center, the second one
    selected, and the distance between them under [small_angle_libm]. *)
Definition sample_home : CityObject := {|
  id := "3f9a1c07be";
  obj_type := housing;
  lat := 49.9483;
  lon := 82.6285;
  params := default ∅ (DEFAULT_PARAMS !! housing)
|}.

Definition sample_school : CityObject := {|
  id := "b04e77a912";
  obj_type := school;
  lat := 49.9520;
  lon := 82.6310;
  params := default ∅ (DEFAULT_PARAMS !! school)
|}.

Definition sample_state : session_state :=
  add_object "b04e77a912" school 49.9520 82.6310
    (add_object "3f9a1c07be" housing 49.9483 82.6285 init_state).

Definition sample_distance : float :=
  Eval vm_compute in
    match
      haversine_km (H := small_angle_libm) 49.9483 82.6285 49.9520 82.6310
    with
    | Ok d => d
    | Raise _ => nan
    end.

(** ** Palette *)

Record palette_item : Type := {
  type : string;
  emoji : string;
  hint : string
}.

Definition PALETTE : list palette_item := [
  {| type := housing; emoji := "🏢";
     hint := "Добавляет жителей и увеличивает поездки." |};
  {| type := school; emoji := "🏫";
     hint := "Лучше рядом с жильём и подальше от промзон." |};
  {| type := park; emoji := "🌳";
     hint := "Улучшает экологию и комфорт, особенно рядом с жильём." |};
  {| type := sport; emoji := "🏟️";
     hint := "Притягивает людей, лучше рядом с жильём и дорогами." |};
  {| type := industry; emoji := "🏭";
     hint := "Даёт рабочие места, но ухудшает экологию рядом." |};
  {| type := bridge; emoji := "🌉";
     hint := "Улучшает связанность, полезен у “разрывов” маршрутов." |}
].

Definition pin : string := "📍".

(** The loop of [emoji_for_type] over a palette. *)
Fixpoint emoji_in (items : list palette_item) (t : string) : string :=
  match items with
  | [] => pin
  | item :: items' =>
      if bool_decide (type item = t) then emoji item else emoji_in items' t
  end.

Definition emoji_for_type (t : string) : string := emoji_in PALETTE t.

(** ** The statements of the rules, by name *)

Definition msg_school_none : string :=
  "Поблизости нет школ — возможна перегрузка инфраструктуры.".
Definition msg_school_near : string :=
  "Школа относительно рядом — лучше доступность.".
Definition msg_school_far : string :=
  "Школа далеко — возрастёт нагрузка на транспорт.".
Definition msg_bridge_plus : string :=
  "Мост обычно улучшает связанность и снижает объезды.".
Definition msg_bridge_minus : string :=
  "Если нет разрыва маршрутов, эффект может быть слабее (в MVP это упрощено).".

(** The four categories whose nearest object [evaluate_location] looks up. *)
Definition reference_types : list string := [housing; school; park; industry].

(** ** The page: panels and handlers *)

Definition mode_add : string := "Добавить".
Definition mode_move : string := "Переместить".
Definition mode_delete : string := "Удалить".

(** The select box of the left panel.  Its default index is that of the
    first object with the selected identifier, 0 without one. *)
Definition select_index (st : session_state) : nat :=
  let sid := selected_id st in
  if py_not sid then 0
  else default 0 (fst <$> list_find (fun o => Some (id o) = sid) (objects st)).

(** [selected_id = options[chosen][0]]; an index out of range has no
    option. *)
Definition select_object (chosen : nat) (st : session_state)
    : option session_state :=
  o ← objects st !! chosen;
  Some (with_registry st (objects st) (Some (id o))).


(** The point of the perimeter analysis: the selected object, else the last
    click, else the default center. *)
Definition analysis_base (st : session_state) : float * float :=
  match get_selected_obj st with
  | Some sel => (lat sel, lon sel)
  | None =>
      match last_click st with
      | Some c => c
      | None => DEFAULT_CENTER
      end
  end.

Definition panel_analysis `{Libm} (st : session_state) : exc perimeter :=
  analyze_perimeter (analysis_base st).1 (analysis_base st).2 (objects st)
    ANALYSIS_RADIUS_KM.

Definition with_last_click (st : session_state) (c : option (float * float))
    : session_state := {|
  objects := objects st;
  mode := mode st;
  palette_selected := palette_selected st;
  selected_id := selected_id st;
  last_click := c
|}.

(** A click on the map at [(lat0, lon0)]; [nid] is the identifier that
    [new_id()] draws if an object is added. *)
Definition on_map_click (nid : string) (lat0 lon0 : float)
    (st : session_state) : session_state :=
  let st := with_last_click st (Some (lat0, lon0)) in
  if bool_decide (mode st = mode_add) then
    add_object nid (palette_selected st) lat0 lon0 st
  else if bool_decide (mode st = mode_move) then
    if py_not (selected_id st) then st
    else (move_selected lat0 lon0 st).2
  else st.

(** The verdict of [evaluate_location] once the four nearest distances are
    known: the short-circuit, the rules and the fallback. *)
Definition verdict_of (t : string) (objs : list CityObject)
    (nh ns np ni : option float) : verdict :=
  match objs with
  | [] => ([msg_first_point], [])
  | _ :: _ =>
      let v := category_rules t nh ns np ni in
      match v.1 with
      | [] => plus_append msg_fallback v
      | _ :: _ => v
      end
  end.

(** More sample data: a plant with perfect filters, a sports complex, and
    the sample registry in move mode. *)
Definition sample_plant : CityObject := {|
  id := "c5d20e44f1";
  obj_type := industry;
  lat := 49.9450;
  lon := 82.6200;
  params := list_to_map [("emission", 120.0%float); ("filters_eff", 1.0%float)]
|}.

Definition sample_arena : CityObject := {|
  id := "9e81b3a06d";
  obj_type := sport;
  lat := 49.9555;
  lon := 82.6400;
  params := default ∅ (DEFAULT_PARAMS !! sport)
|}.

Definition sample_move_state : session_state := {|
  objects := objects sample_state;
  mode := mode_move;
  palette_selected := housing;
  selected_id := selected_id sample_state;
  last_click := None
|}.

(** ** Binary64 numbers: order and magnitude

    The comparison of two numbers that are not NaN is the lexicographic
    comparison of their keys: the sign class, then the exponent and the
    mantissa (both negated for a negative number). *)
Definition SFkey (x : spec_float) : option (Z * Z * Z) :=
  match x with
  | S754_nan => None
  | S754_zero _ => Some (0, 0, 0)%Z
  | S754_infinity s => Some (if s then (-2)%Z else 2%Z, 0%Z, 0%Z)
  | S754_finite s m e =>
      Some (if s then ((-1)%Z, (- e)%Z, Zneg m) else (1%Z, e, Zpos m))
  end.

Definition key_lt (a b : Z * Z * Z) : Prop :=
  (a.1.1 < b.1.1 \/
   (a.1.1 = b.1.1 /\ (a.1.2 < b.1.2 \/ (a.1.2 = b.1.2 /\ a.2 < b.2))))%Z.

Definition float_key (x : float) : option (Z * Z * Z) := SFkey (Prim2SF x).

Definition SFfinite (x : spec_float) : Prop :=
  match x with
  | S754_zero _ | S754_finite _ _ _ => True
  | _ => False
  end.

(** Zero, or finite with an exponent of at most [k]. *)
Definition SFsmall (k : Z) (x : spec_float) : Prop :=
  match x with
  | S754_zero _ => True
  | S754_finite _ _ e => (e <= k)%Z
  | _ => False
  end.

(** * Properties *)

Local Close Scope string_scope.

(** ** Binary64 numbers: order *)

Lemma SFcompare_key x y :
  match SFcompare x y with
  | Some Lt => exists a b, SFkey x = Some a /\ SFkey y = Some b /\ key_lt a b
  | Some Eq => exists a, SFkey x = Some a /\ SFkey y = Some a
  | Some Gt => exists a b, SFkey x = Some a /\ SFkey y = Some b /\ key_lt b a
  | None => SFkey x = None \/ SFkey y = None
  end.
Proof.
  destruct x as [[]|[]| |[] mx ex], y as [[]|[]| |[] my ey]; simpl;
    try (by eauto);
    try (by (do 2 eexists; split_and!; [done..|unfold key_lt; simpl; lia])).
  all: destruct (Z.compare_spec ex ey) as [->| |];
    [ change (Pos.compare_cont Eq mx my) with (mx ?= my)%positive;
      destruct (Pos.compare_spec mx my) as [->| |]; simpl | | ];
    try (by eauto);
    try (by (do 2 eexists; split_and!; [done..|unfold key_lt; simpl; lia])).
Qed.

Lemma key_lt_trans a b c : key_lt a b -> key_lt b c -> key_lt a c.
Proof. unfold key_lt. lia. Qed.

Lemma key_lt_irrefl a : ~ key_lt a a.
Proof. unfold key_lt. lia. Qed.

Lemma key_trichotomy (a b : Z * Z * Z) : key_lt a b \/ a = b \/ key_lt b a.
Proof.
  destruct a as [[a1 a2] a3], b as [[b1 b2] b3]. unfold key_lt. simpl.
  destruct (Z.lt_trichotomy a1 b1) as [?|[->|?]]; [lia| |lia].
  destruct (Z.lt_trichotomy a2 b2) as [?|[->|?]]; [lia| |lia].
  destruct (Z.lt_trichotomy a3 b3) as [?|[->|?]]; [lia| |lia].
  right; left; done.
Qed.

Lemma float_ltb_key x y :
  (x <? y)%float = true <->
  exists a b, float_key x = Some a /\ float_key y = Some b /\ key_lt a b.
Proof.
  rewrite FloatAxioms.ltb_spec. unfold SFltb, float_key.
  pose proof (SFcompare_key (Prim2SF x) (Prim2SF y)) as H.
  destruct (SFcompare (Prim2SF x) (Prim2SF y)) as [[]|]; split; try done.
  - intros (a & b & Ha & Hb & Hlt). destruct H as (c & Hc1 & Hc2).
    rewrite Ha in Hc1. rewrite Hb in Hc2. simplify_eq.
    by apply key_lt_irrefl in Hlt.
  - intros (a & b & Ha & Hb & Hlt). destruct H as (a' & b' & Ha' & Hb' & Hgt).
    rewrite Ha in Ha'. rewrite Hb in Hb'. simplify_eq.
    destruct (key_lt_irrefl a'). by eapply key_lt_trans.
  - intros (a & b & Ha & Hb & Hlt). destruct H; congruence.
Qed.

Lemma float_leb_key x y :
  (x <=? y)%float = true <->
  exists a b, float_key x = Some a /\ float_key y = Some b /\
              (key_lt a b \/ a = b).
Proof.
  rewrite FloatAxioms.leb_spec. unfold SFleb, float_key.
  pose proof (SFcompare_key (Prim2SF x) (Prim2SF y)) as H.
  destruct (SFcompare (Prim2SF x) (Prim2SF y)) as [[]|]; split; try done.
  - intros _. destruct H as (a & Ha & Hb). eauto 6.
  - intros _. destruct H as (a & b & Ha & Hb & Hlt). eauto 6.
  - intros (a & b & Ha & Hb & Hle). destruct H as (a' & b' & Ha' & Hb' & Hgt).
    rewrite Ha in Ha'. rewrite Hb in Hb'. simplify_eq.
    destruct Hle as [Hlt| ->].
    + destruct (key_lt_irrefl a'). by eapply key_lt_trans.
    + by apply key_lt_irrefl in Hgt.
  - intros (a & b & Ha & Hb & Hle). destruct H; congruence.
Qed.

Lemma float_eqb_key x y :
  (x =? y)%float = true <->
  exists a, float_key x = Some a /\ float_key y = Some a.
Proof.
  rewrite FloatAxioms.eqb_spec. unfold SFeqb, float_key.
  pose proof (SFcompare_key (Prim2SF x) (Prim2SF y)) as H.
  destruct (SFcompare (Prim2SF x) (Prim2SF y)) as [[]|]; split; try done.
  - intros (a & Ha & Hb). destruct H as (a' & b' & Ha' & Hb' & Hlt).
    rewrite Ha in Ha'. rewrite Hb in Hb'. simplify_eq.
    by apply key_lt_irrefl in Hlt.
  - intros (a & Ha & Hb). destruct H as (a' & b' & Ha' & Hb' & Hlt).
    rewrite Ha in Ha'. rewrite Hb in Hb'. simplify_eq.
    by apply key_lt_irrefl in Hlt.
  - intros (a & Ha & Hb). destruct H; congruence.
Qed.

Lemma float_ltb_leb x y : (x <? y)%float = true -> (x <=? y)%float = true.
Proof.
  rewrite float_ltb_key, float_leb_key.
  intros (a & b & ? & ? & ?). eauto 6.
Qed.

Lemma float_eqb_leb x y : (x =? y)%float = true -> (x <=? y)%float = true.
Proof.
  rewrite float_eqb_key, float_leb_key. intros (a & ? & ?). eauto 6.
Qed.

Lemma float_leb_trans x y z :
  (x <=? y)%float = true -> (y <=? z)%float = true -> (x <=? z)%float = true.
Proof.
  rewrite !float_leb_key.
  intros (a & b & Ha & Hb & Hab) (b' & c & Hb' & Hc & Hbc).
  rewrite Hb in Hb'. simplify_eq. exists a, c. split_and!; [done..|].
  destruct Hab as [Hab| ->], Hbc as [Hbc| ->]; eauto using key_lt_trans.
Qed.

(** Two numbers that are each below some bound are comparable. *)
Lemma float_leb_total x y bx by_ :
  (x <=? bx)%float = true -> (y <=? by_)%float = true ->
  (y <? x)%float = false -> (x <=? y)%float = true.
Proof.
  intros Hx Hy Hlt.
  apply float_leb_key in Hx as (a & ? & Ha & _ & _).
  apply float_leb_key in Hy as (b & ? & Hb & _ & _).
  apply float_leb_key. exists a, b. split_and!; [done..|].
  destruct (key_trichotomy a b) as [?|[?|Hgt]]; [by left|by right|].
  assert ((y <? x)%float = true) by (apply float_ltb_key; eauto 6).
  congruence.
Qed.

Lemma float_ltb_not_leb x y : (x <? y)%float = true -> (y <=? x)%float = false.
Proof.
  rewrite float_ltb_key. intros (a & b & Ha & Hb & Hlt).
  apply not_true_iff_false. rewrite float_leb_key.
  intros (b' & a' & Hb' & Ha' & Hle).
  rewrite Ha in Ha'. rewrite Hb in Hb'. simplify_eq.
  destruct Hle as [Hlt'| ->].
  - destruct (key_lt_irrefl a'). by eapply key_lt_trans.
  - by apply key_lt_irrefl in Hlt.
Qed.

(** ** Binary64 numbers: symmetries of the arithmetic *)

Lemma SFopp_binary_round_aux s m e l :
  SFopp (binary_round_aux prec emax s m e l) =
  binary_round_aux prec emax (negb s) m e l.
Proof.
  unfold binary_round_aux.
  destruct (shr_fexp prec emax m e l) as [mrs' e'].
  destruct (shr_fexp prec emax _ e' loc_Exact) as [mrs'' e''].
  destruct (shr_m mrs''); [done| |done].
  by destruct (e'' <=? emax - prec)%Z.
Qed.

Lemma SFopp_binary_round s m e :
  SFopp (binary_round prec emax s m e) = binary_round prec emax (negb s) m e.
Proof.
  unfold binary_round. destruct (shl_align _ _ _) as [mz ez].
  apply SFopp_binary_round_aux.
Qed.

Lemma SFmul_comm x y : SFmul prec emax x y = SFmul prec emax y x.
Proof.
  destruct x as [sx|sx| |sx mx ex], y as [sy|sy| |sy my ey]; simpl;
    rewrite ?(xorb_comm sx sy); try done.
  by rewrite Pos.mul_comm, Z.add_comm.
Qed.

Lemma float_mul_comm x y : (x * y)%float = (y * x)%float.
Proof. apply Prim2SF_inj. rewrite !mul_spec. apply SFmul_comm. Qed.

Lemma SFopp_involutive x : SFopp (SFopp x) = x.
Proof. destruct x; simpl; by rewrite ?negb_involutive. Qed.

Lemma float_opp_involutive x : (- - x)%float = x.
Proof. apply Prim2SF_inj. rewrite !opp_spec. apply SFopp_involutive. Qed.

Lemma SFmul_opp_l x y :
  SFmul prec emax (SFopp x) y = SFopp (SFmul prec emax x y).
Proof.
  destruct x as [sx|sx| |sx mx ex], y as [sy|sy| |sy my ey]; simpl;
    rewrite ?SFopp_binary_round_aux; try done; by destruct sx, sy.
Qed.

Lemma float_mul_opp_l x y : (- x * y)%float = (- (x * y))%float.
Proof.
  apply Prim2SF_inj. rewrite opp_spec, !mul_spec, opp_spec.
  apply SFmul_opp_l.
Qed.

Lemma SFdiv_opp_l x y :
  SFdiv prec emax (SFopp x) y = SFopp (SFdiv prec emax x y).
Proof.
  destruct x as [sx|sx| |sx mx ex], y as [sy|sy| |sy my ey]; simpl;
    try done; try (by destruct sx, sy).
  destruct (SFdiv_core_binary _ _ _ _ _ _) as [[mz ez] lz].
  rewrite SFopp_binary_round_aux. by destruct sx, sy.
Qed.

Lemma float_div_opp_l x y : (- x / y)%float = (- (x / y))%float.
Proof.
  apply Prim2SF_inj. rewrite opp_spec, !div_spec, opp_spec.
  apply SFdiv_opp_l.
Qed.

Lemma binary_normalize_opp d e :
  binary_normalize prec emax (- d) e false =
  if decide (d = 0%Z) then S754_zero false
  else SFopp (binary_normalize prec emax d e false).
Proof.
  destruct d; simpl; [done|..]; by rewrite SFopp_binary_round.
Qed.

Lemma SFsub_antisym x y :
  SFsub prec emax x y = SFopp (SFsub prec emax y x) \/
  (SFsub prec emax x y = S754_zero false /\
   SFsub prec emax y x = S754_zero false).
Proof.
  destruct x as [sx|sx| |sx mx ex], y as [sy|sy| |sy my ey]; simpl;
    try (by left; rewrite ?negb_involutive);
    try (by destruct sx, sy; auto).
  rewrite (Z.min_comm ey ex).
  set (a := cond_Zopp sx _). set (b := cond_Zopp sy _).
  replace (b - a)%Z with (- (a - b))%Z by lia.
  rewrite binary_normalize_opp. destruct (decide _) as [->|]; [by right|].
  left. by rewrite SFopp_involutive.
Qed.

Lemma float_sub_antisym x y :
  (x - y)%float = (- (y - x))%float \/
  ((x - y)%float = 0%float /\ (y - x)%float = 0%float).
Proof.
  destruct (SFsub_antisym (Prim2SF x) (Prim2SF y)) as [H|[H1 H2]].
  - left. apply Prim2SF_inj. by rewrite opp_spec, !sub_spec.
  - right. split; apply Prim2SF_inj; by rewrite sub_spec.
Qed.

(** ** Binary64 numbers: rounding without overflow *)

Section rounding.
Local Open Scope Z_scope.

Lemma shr_1_bounds mrs :
  0 <= shr_m mrs -> 0 <= shr_m (shr_1 mrs) <= shr_m mrs.
Proof. destruct mrs as [[|[p|p|]|p] r s]; simpl; lia. Qed.

Lemma iter_pos_shr_1_bounds p mrs :
  0 <= shr_m mrs -> 0 <= shr_m (SpecFloat.iter_pos shr_1 p mrs) <= shr_m mrs.
Proof.
  revert mrs. induction p as [p IH|p IH|]; intros mrs Hm; simpl.
  - pose proof (shr_1_bounds mrs Hm) as H1.
    pose proof (IH (shr_1 mrs) ltac:(lia)) as H2.
    pose proof (IH (SpecFloat.iter_pos shr_1 p (shr_1 mrs)) ltac:(lia)). lia.
  - pose proof (IH mrs Hm) as H1.
    pose proof (IH (SpecFloat.iter_pos shr_1 p mrs) ltac:(lia)). lia.
  - by apply shr_1_bounds.
Qed.

Lemma shr_bounds mrs e n :
  0 <= shr_m mrs ->
  0 <= shr_m (shr mrs e n).1 <= shr_m mrs /\
  ((shr mrs e n).2 = e \/ (shr mrs e n).2 = e + n).
Proof.
  intros Hm. destruct n as [|p|p]; simpl; try lia.
  split; [by apply iter_pos_shr_1_bounds|lia].
Qed.

Lemma round_nearest_even_bounds m l :
  0 <= m -> 0 <= round_nearest_even m l <= m + 1.
Proof.
  intros Hm. destruct l as [|[]]; simpl; try lia.
  destruct (Z.even m); lia.
Qed.

Lemma digits2_pos_gt p : Zpos p < 2 ^ Zpos (digits2_pos p).
Proof.
  induction p as [p IH|p IH|]; simpl; [| |done];
    rewrite Pos2Z.inj_succ, Z.pow_succ_r by lia; lia.
Qed.

Lemma digits2_pos_le p k : 0 <= k -> Zpos p < 2 ^ k -> Zpos (digits2_pos p) <= k.
Proof.
  revert k. induction p as [p IH|p IH|]; intros k Hk Hp; simpl.
  - assert (k = Z.succ (k - 1)) as Hk1 by lia.
    assert (0 < k) by (destruct (decide (k = 0)) as [->|]; [simpl in Hp|]; lia).
    rewrite Hk1, Z.pow_succ_r in Hp by lia.
    specialize (IH (k - 1) ltac:(lia) ltac:(lia)). lia.
  - assert (k = Z.succ (k - 1)) as Hk1 by lia.
    assert (0 < k) by (destruct (decide (k = 0)) as [->|]; [simpl in Hp|]; lia).
    rewrite Hk1, Z.pow_succ_r in Hp by lia.
    specialize (IH (k - 1) ltac:(lia) ltac:(lia)). lia.
  - destruct (decide (k = 0)) as [->|]; [simpl in Hp|]; lia.
Qed.

Lemma Zdigits2_le z k : 0 <= k -> 0 <= z < 2 ^ k -> 0 <= Zdigits2 z <= k.
Proof.
  intros Hk [Hz0 Hz]. destruct z as [|p|p]; simpl; [lia| |lia].
  split; [lia|]. by apply digits2_pos_le.
Qed.

Lemma bounded_mantissa m e :
  bounded prec emax m e = true -> Zpos m < 2 ^ 53.
Proof.
  unfold bounded, canonical_mantissa, fexp, emin, prec, emax.
  intros [H _]%andb_prop. apply Z.eqb_eq in H.
  pose proof (digits2_pos_gt m) as Hd.
  assert (Zpos (digits2_pos m) <= 53) as Hle by lia.
  eapply Z.lt_le_trans; [done|]. by apply Z.pow_le_mono_r.
Qed.

Lemma shr_1_div2 mrs : 0 <= shr_m mrs -> shr_m (shr_1 mrs) = shr_m mrs / 2.
Proof.
  destruct mrs as [[|[p|p|]|p] r s]; simpl; intros Hm; try done; try lia.
  - rewrite Pos2Z.inj_xI. apply Z.div_unique with 1; lia.
  - rewrite Pos2Z.inj_xO. apply Z.div_unique with 0; lia.
Qed.

Lemma iter_pos_shr_1_div p mrs :
  0 <= shr_m mrs ->
  shr_m (SpecFloat.iter_pos shr_1 p mrs) = shr_m mrs / 2 ^ Zpos p.
Proof.
  revert mrs. induction p as [p IH|p IH|]; intros mrs Hm; simpl;
    [pose proof (Z.pow_pos_nonneg 2 (Zpos p) ltac:(lia) ltac:(lia)) as Hp..|].
  - pose proof (shr_1_bounds mrs Hm) as H1.
    pose proof (iter_pos_shr_1_bounds p (shr_1 mrs) ltac:(lia)) as H2.
    assert (2 ^ Zpos p~1 = 2 * 2 ^ Zpos p * 2 ^ Zpos p) as ->.
    { rewrite <- Z.mul_assoc, <- Z.pow_add_r, <- Z.pow_succ_r by lia.
      f_equal. lia. }
    rewrite !IH, shr_1_div2 by lia. rewrite !Z.div_div by lia.
    f_equal. lia.
  - pose proof (iter_pos_shr_1_bounds p mrs Hm) as H2.
    assert (2 ^ Zpos p~0 = 2 ^ Zpos p * 2 ^ Zpos p) as ->.
    { rewrite <- Z.pow_add_r by lia. f_equal. lia. }
    rewrite !IH by lia. by rewrite Z.div_div by lia.
  - by rewrite shr_1_div2.
Qed.

(** The first shift of [binary_round_aux] leaves a mantissa of at most 53
    bits. *)
Lemma shr_fexp_mantissa m e k :
  0 <= k -> Zpos m < 2 ^ k -> e <= 970 -> k + e <= 1023 ->
  0 <= shr_m (shr_fexp prec emax (Zpos m) e loc_Exact).1 < 2 ^ 53 /\
  (shr_fexp prec emax (Zpos m) e loc_Exact).2 <= 970.
Proof.
  intros Hk Hm He Hke. unfold shr_fexp.
  pose proof (digits2_pos_gt m) as HD.
  pose proof (Zdigits2_le (Zpos m) k Hk ltac:(lia)) as HDk.
  change (Zdigits2 (Zpos m)) with (Zpos (digits2_pos m)) in *.
  set (D := Zpos (digits2_pos m)) in *.
  destruct (fexp prec emax (D + e) - e) as [|p|p] eqn:Hn; simpl;
    unfold fexp, emin, prec, emax in Hn.
  - split; [|done]. split; [lia|].
    eapply Z.lt_le_trans; [done|]. apply Z.pow_le_mono_r; lia.
  - rewrite iter_pos_shr_1_div by (simpl; lia). simpl.
    split; [|lia]. split; [apply Z.div_pos; [lia|by apply Z.pow_pos_nonneg]|].
    apply Z.div_lt_upper_bound; [by apply Z.pow_pos_nonneg|].
    rewrite <- Z.pow_add_r by lia.
    eapply Z.lt_le_trans; [done|]. apply Z.pow_le_mono_r; lia.
  - split; [|done]. split; [lia|].
    eapply Z.lt_le_trans; [done|]. apply Z.pow_le_mono_r; lia.
Qed.

(** Rounding a number below 2^1023 neither overflows nor loses its sign. *)
Lemma binary_round_aux_finite s m e k :
  0 <= k -> Zpos m < 2 ^ k -> e <= 970 -> k + e <= 1023 ->
  SFfinite (binary_round_aux prec emax s (Zpos m) e loc_Exact).
Proof.
  intros Hk Hm He Hke. unfold binary_round_aux.
  pose proof (shr_fexp_mantissa m e k Hk Hm He Hke) as [Hm1 He1].
  destruct (shr_fexp prec emax (Zpos m) e loc_Exact) as [mrs' e'].
  simpl in Hm1, He1.
  set (m1 := round_nearest_even (shr_m mrs') (loc_of_shr_record mrs')).
  pose proof (round_nearest_even_bounds (shr_m mrs') (loc_of_shr_record mrs')
                ltac:(lia)) as Hr. fold m1 in Hr.
  pose proof (Zdigits2_le m1 54 ltac:(lia)
                ltac:(change (2 ^ 54) with (2 * 2 ^ 53); lia)) as HD1.
  unfold shr_fexp.
  set (n2 := fexp prec emax (Zdigits2 m1 + e') - e').
  pose proof (shr_bounds (shr_record_of_loc m1 loc_Exact) e' n2
                ltac:(simpl; lia)) as [Hm2 He2].
  destruct (shr _ e' n2) as [mrs'' e'']. simpl in Hm2, He2.
  assert (e'' <= 971) as He''.
  { subst n2. unfold fexp, emin, prec, emax in He2. lia. }
  destruct (shr_m mrs'') as [|p|p]; simpl; [done| |lia].
  destruct (Z.leb_spec e'' (emax - prec)); simpl; [done|].
  unfold emax, prec in *. lia.
Qed.

Lemma bounded_exponent m e : bounded prec emax m e = true -> e <= 971.
Proof.
  unfold bounded, prec, emax. intros [_ H]%andb_prop. apply Z.leb_le in H. lia.
Qed.

(** A product of two finite numbers whose exponents add up to at most 917
    is finite. *)
Lemma SFmul_finite kx ky x y :
  valid_binary x = true -> valid_binary y = true ->
  SFsmall kx x -> SFsmall ky y -> kx + ky <= 917 ->
  SFfinite (SFmul prec emax x y).
Proof.
  intros Vx Vy Hx Hy Hk.
  destruct x as [sx|sx| |sx mx ex], y as [sy|sy| |sy my ey]; simpl in *;
    try done.
  apply bounded_mantissa in Vx, Vy.
  apply (binary_round_aux_finite _ _ _ 106); [lia| |lia..].
  rewrite Pos2Z.inj_mul. change (2 ^ 106) with (2 ^ 53 * 2 ^ 53). nia.
Qed.

Lemma SFfinite_small x :
  valid_binary x = true -> SFfinite x -> SFsmall 971 x.
Proof.
  destruct x as [s|s| |s m e]; simpl; try done.
  intros H%bounded_exponent _. done.
Qed.
End rounding.

(** ** Binary64 numbers: classification *)

Lemma SFcompare_refl x : x <> S754_nan -> SFcompare x x = Some Eq.
Proof.
  destruct x as [[]|[]| |[] m e]; simpl; try done;
    by rewrite Z.compare_refl, Pos.compare_cont_refl.
Qed.

Lemma float_is_nan_SF x : is_nan x = true <-> Prim2SF x = S754_nan.
Proof.
  unfold is_nan. rewrite FloatAxioms.eqb_spec. unfold SFeqb.
  destruct (Prim2SF x) as [s|s| |s m e] eqn:Hx; [..|done| ];
    rewrite SFcompare_refl by done; done.
Qed.

Lemma float_is_infinity_SF x :
  is_infinity x = true <-> exists s, Prim2SF x = S754_infinity s.
Proof.
  unfold is_infinity. rewrite FloatAxioms.eqb_spec, abs_spec.
  change (Prim2SF infinity) with (S754_infinity false).
  destruct (Prim2SF x) as [[]|[]| |[] m e]; simpl; split;
    try done; try (by intros [? ?]); eauto.
Qed.

Lemma float_is_finite_SF x : is_finite x = true <-> SFfinite (Prim2SF x).
Proof.
  unfold is_finite. rewrite negb_true_iff, orb_false_iff.
  rewrite <- !not_true_iff_false, float_is_nan_SF, float_is_infinity_SF.
  destruct (Prim2SF x) as [s|s| |s m e]; simpl.
  - split; [done|]. intros _. split; [done|]. by intros [? ?].
  - split; [|done]. intros [_ H]. apply H. eauto.
  - split; [|done]. intros [H _]. by apply H.
  - split; [done|]. intros _. split; [done|]. by intros [? ?].
Qed.

Lemma SFsmall_finite k x : SFsmall k x -> SFfinite x.
Proof. by destruct x. Qed.

(** A bound on the absolute value bounds the exponent. *)
Lemma float_abs_leb_small x b mb eb :
  Prim2SF b = S754_finite false mb eb ->
  (abs x <=? b)%float = true -> SFsmall eb (Prim2SF x).
Proof.
  intros Hb. rewrite FloatAxioms.leb_spec, abs_spec, Hb. unfold SFleb.
  destruct (Prim2SF x) as [s|s| |s m e]; simpl; try done.
  destruct (Z.compare_spec e eb); try done; lia.
Qed.


Lemma float_mul_finite kx ky x y :
  SFsmall kx (Prim2SF x) -> SFsmall ky (Prim2SF y) -> (kx + ky <= 917)%Z ->
  SFfinite (Prim2SF (x * y)).
Proof.
  intros. rewrite mul_spec. eapply SFmul_finite; eauto using Prim2SF_valid.
Qed.

Lemma float_finite_small x : is_finite x = true -> SFsmall 971 (Prim2SF x).
Proof.
  intros Hx%float_is_finite_SF. by apply SFfinite_small, Hx; apply Prim2SF_valid.
Qed.

(** ** Geo utility *)

Lemma float_is_nan_opp x : is_nan (- x) = is_nan x.
Proof.
  apply eq_true_iff_eq. rewrite !float_is_nan_SF, opp_spec.
  by destruct (Prim2SF x).
Qed.

Lemma float_abs_opp x : abs (- x) = abs x.
Proof.
  apply Prim2SF_inj. rewrite !abs_spec, opp_spec. by destruct (Prim2SF x).
Qed.

Lemma float_is_infinity_opp x : is_infinity (- x) = is_infinity x.
Proof. unfold is_infinity. by rewrite float_abs_opp. Qed.

Lemma float_is_finite_opp x : is_finite (- x) = is_finite x.
Proof.
  unfold is_finite. by rewrite float_is_nan_opp, float_is_infinity_opp.
Qed.

Lemma float_opp_nan x : is_nan x = true -> (- x)%float = x.
Proof.
  intros Hx%float_is_nan_SF. apply Prim2SF_inj. by rewrite opp_spec, Hx.
Qed.

Lemma float_eqb_zero_opp x : (- x =? 0)%float = (x =? 0)%float.
Proof.
  rewrite !FloatAxioms.eqb_spec, opp_spec.
  change (Prim2SF 0) with (S754_zero false).
  by destruct (Prim2SF x) as [[]|[]| |[] m e].
Qed.

(** Of a number and its opposite, exactly one is negative, unless the number
    is a zero or a NaN. *)
Lemma float_ltb_zero_opp x :
  is_nan x = false -> (x =? 0)%float = false ->
  (- x <? 0)%float = negb (x <? 0)%float.
Proof.
  intros Hn%not_true_iff_false. rewrite float_is_nan_SF in Hn. revert Hn.
  rewrite FloatAxioms.eqb_spec, !FloatAxioms.ltb_spec, opp_spec.
  change (Prim2SF 0) with (S754_zero false).
  by destruct (Prim2SF x) as [[]|[]| |[] m e].
Qed.

Section haversine_symmetry.
Context `{M : Libm}.

Lemma math_1_opp (f : float -> float) x :
  f (- x)%float = (- f x)%float ->
  math_1 f (- x) =
  match math_1 f x with
  | Ok r => Ok (- r)%float
  | Raise e => Raise e
  end.
Proof.
  intros Hf. unfold math_1. rewrite Hf.
  rewrite !float_is_nan_opp, float_is_infinity_opp, float_is_finite_opp.
  destruct (is_nan (f x) && negb (is_nan x)); [done|].
  by destruct (is_infinity (f x) && is_finite x).
Qed.

Lemma math_1_raise (f : float -> float) x e :
  math_1 f x = Raise e -> e = ValueError.
Proof.
  unfold math_1. repeat case_match; congruence.
Qed.

Lemma float_pow2_opp x : float_pow2 (- x) = float_pow2 x.
Proof.
  unfold float_pow2.
  rewrite float_is_nan_opp, float_is_infinity_opp, float_abs_opp,
    float_eqb_zero_opp.
  destruct (is_nan x) eqn:Hn; [by rewrite float_opp_nan|].
  destruct (is_infinity x); [done|].
  destruct (x =? 0)%float eqn:Hz; [done|].
  rewrite float_ltb_zero_opp by done.
  destruct (x <? 0)%float; simpl; by rewrite ?float_opp_involutive.
Qed.

Lemma hav_term_sym `{!LibmSpec M} a b : hav_term a b = hav_term b a.
Proof.
  unfold hav_term, math_radians.
  destruct (float_sub_antisym a b) as [->|[-> ->]]; [|done].
  rewrite float_mul_opp_l, float_div_opp_l.
  rewrite math_1_opp by apply libm_sin_opp.
  destruct (math_1 libm_sin _) as [r|e]; simpl; [|done].
  symmetry. apply float_pow2_opp.
Qed.

Lemma haversine_km_hav_term lat1 lon1 lat2 lon2 :
  haversine_km lat1 lon1 lat2 lon2 =
  (q1 ← hav_term lat1 lat2;
   c1 ← math_1 libm_cos (math_radians lat1);
   c2 ← math_1 libm_cos (math_radians lat2);
   q2 ← hav_term lon1 lon2;
   r ← math_1 sqrt (q1 + c1 * c2 * q2)%float;
   t ← math_1 libm_asin r;
   Ok (2 * 6371.0 * t)%float).
Proof.
  unfold haversine_km, hav_term.
  destruct (math_1 libm_sin (math_radians (lat2 - lat1) / 2)); simpl; [|done].
  destruct (float_pow2 _); simpl; [|done].
  destruct (math_1 libm_cos (math_radians lat1)); simpl; [|done].
  destruct (math_1 libm_cos (math_radians lat2)); simpl; [|done].
  by destruct (math_1 libm_sin (math_radians (lon2 - lon1) / 2)).
Qed.

Lemma haversine_km_sym `{!LibmSpec M} lat1 lon1 lat2 lon2 :
  haversine_km lat1 lon1 lat2 lon2 = haversine_km lat2 lon2 lat1 lon1.
Proof.
  rewrite !haversine_km_hav_term.
  rewrite (hav_term_sym lat2 lat1), (hav_term_sym lon2 lon1).
  destruct (hav_term lat1 lat2) as [q1|]; simpl; [|done].
  destruct (math_1 libm_cos (math_radians lat1)) as [c1|e1] eqn:H1,
    (math_1 libm_cos (math_radians lat2)) as [c2|e2] eqn:H2; simpl;
    try done.
  - by rewrite (float_mul_comm c2 c1).
  - apply math_1_raise in H1, H2. by subst.
Qed.
End haversine_symmetry.

Lemma SFsub_diag x : SFfinite x -> SFsub prec emax x x = S754_zero false.
Proof.
  destruct x as [[]|s| |s m e]; simpl; try done.
  intros _. by rewrite Z.sub_diag.
Qed.

Lemma float_sub_diag x : SFfinite (Prim2SF x) -> (x - x)%float = 0%float.
Proof.
  intros Hx. apply Prim2SF_inj. rewrite sub_spec. by apply SFsub_diag.
Qed.

(** Adding a zero of either sign, the product of a finite number and zero,
    to zero gives zero. *)
Lemma float_zero_add_mul_zero y :
  SFfinite (Prim2SF y) -> (0 + y * 0)%float = 0%float.
Proof.
  intros Hy. apply Prim2SF_inj. rewrite add_spec, mul_spec.
  change (Prim2SF 0) with (S754_zero false).
  by destruct (Prim2SF y) as [[]|s| |[] m e].
Qed.

Lemma math_1_finite (f : float -> float) x :
  SFfinite (Prim2SF (f x)) -> math_1 f x = Ok (f x).
Proof.
  intros Hf. unfold math_1.
  assert (is_nan (f x) = false) as ->.
  { apply not_true_iff_false. rewrite float_is_nan_SF.
    by destruct (Prim2SF (f x)). }
  assert (is_infinity (f x) = false) as ->; [|done].
  apply not_true_iff_false. rewrite float_is_infinity_SF.
  intros [s Hs]. by rewrite Hs in Hf.
Qed.

Section haversine_diagonal.
Context `{M : Libm} `{!LibmSpec M}.

Lemma hav_term_diag a : SFfinite (Prim2SF a) -> hav_term a a = Ok 0%float.
Proof.
  intros Ha. unfold hav_term. rewrite float_sub_diag by done.
  change (math_radians 0 / 2)%float with 0%float.
  rewrite math_1_finite; rewrite libm_sin_zero; done.
Qed.

Lemma math_cos_small p :
  SFfinite (Prim2SF p) ->
  math_1 libm_cos p = Ok (libm_cos p) /\
  SFsmall (-52) (Prim2SF (libm_cos p)).
Proof.
  intros Hp%float_is_finite_SF%libm_cos_range.
  eapply float_abs_leb_small in Hp; [|reflexivity].
  split; [|done]. apply math_1_finite. by eapply SFsmall_finite.
Qed.

Lemma math_radians_finite x :
  is_finite x = true -> SFfinite (Prim2SF (math_radians x)).
Proof.
  intros Hx%float_finite_small.
  unfold math_radians. apply (float_mul_finite 971 (-58)); [done| |lia].
  change (Prim2SF degToRad) with (S754_finite false 5030569068109113 (-58)).
  simpl. lia.
Qed.

Lemma haversine_km_diag lat0 lon0 :
  finite_coord lat0 lon0 = true ->
  haversine_km lat0 lon0 lat0 lon0 = Ok 0%float.
Proof.
  intros [Hlat Hlon]%andb_prop.
  pose proof (math_radians_finite _ Hlat) as Hp.
  destruct (math_cos_small _ Hp) as [Hc Hs].
  rewrite haversine_km_hav_term.
  rewrite !hav_term_diag, Hc by (by apply float_is_finite_SF).
  simpl. rewrite float_zero_add_mul_zero.
  - rewrite math_1_finite by done. simpl.
    rewrite math_1_finite; rewrite libm_asin_zero; done.
  - eapply float_mul_finite; [done..|lia].
Qed.
End haversine_diagonal.

Lemma small_angle_libm_spec : LibmSpec small_angle_libm.
Proof. split; simpl; intros; reflexivity. Qed.

(** C9.  With a mathematics library that has [sin 0 = 0], [asin 0 = 0], an
    odd sine and a cosine between -1 and 1, the distance from a coordinate
    of finite latitude and longitude to itself is 0 (and no exception is
    raised), and the distance is symmetric: the two calls give the same
    number or raise the same exception, whatever the four floats are. *)
Theorem haversine_km_zero_and_symmetric `{M : Libm} `{!LibmSpec M}
    (lat1 lon1 lat2 lon2 : float) :
  (finite_coord lat1 lon1 = true ->
   haversine_km lat1 lon1 lat1 lon1 = Ok 0%float) /\
  haversine_km lat1 lon1 lat2 lon2 = haversine_km lat2 lon2 lat1 lon1.
Proof.
  split; [apply haversine_km_diag|apply haversine_km_sym].
Qed.

Lemma haversine_km_zero_and_symmetric_witness :
  finite_coord 49.9483 82.6285 = true /\
  haversine_km (H := small_angle_libm) 49.9483 82.6285 49.9483 82.6285
    = Ok 0%float /\
  haversine_km (H := small_angle_libm) 49.9483 82.6285 49.9520 82.6310
    = haversine_km (H := small_angle_libm) 49.9520 82.6310 49.9483 82.6285.
Proof.
  pose proof (haversine_km_zero_and_symmetric
                (M := small_angle_libm) (LibmSpec0 := small_angle_libm_spec)
                49.9483 82.6285 49.9520 82.6310) as [Hzero Hsym].
  split; [reflexivity|]. split; [apply Hzero; reflexivity|exact Hsym].
Defined.

(** ** Exceptions of the loops over the objects *)

Section collection.
Context `{M : Libm}.
Implicit Types (o : CityObject) (d radius : float).
Implicit Types (near : list (CityObject * float)).

Lemma exc_map_Raise {A B} (f : A -> exc B) (l : list A) e :
  exc_map f l = Raise e -> exists x, x ∈ l /\ f x = Raise e.
Proof.
  induction l as [|x l IH]; simpl; [done|].
  destruct (f x) as [y|e'] eqn:Hx; simpl.
  - destruct (exc_map f l) as [ys|e'']; simpl; [done|].
    intros [= ->]. destruct IH as (x' & ? & ?); [done|].
    exists x'. split; [by right|done].
  - intros [= ->]. exists x. split; [by left|done].
Qed.

Lemma collect_around_Raise lat0 lon0 objs radius e :
  collect_around lat0 lon0 objs radius = Raise e ->
  exists o, o ∈ objs /\ haversine_km lat0 lon0 (lat o) (lon o) = Raise e.
Proof.
  induction objs as [|o objs IH]; simpl; [done|].
  destruct (haversine_km lat0 lon0 (lat o) (lon o)) as [d|e'] eqn:Ho; simpl.
  - destruct (collect_around lat0 lon0 objs radius) as [rest|e'']; simpl;
      [done|].
    intros [= ->]. destruct IH as (o' & ? & ?); [done|].
    exists o'. split; [by right|done].
  - intros [= ->]. exists o. split; [by left|done].
Qed.

(** The first loop keeps, in registry order, the pairs of an object and its
    distance whose distance is at most the radius. *)
Lemma collect_around_Ok lat0 lon0 objs radius near :
  collect_around lat0 lon0 objs radius = Ok near ->
  exists ds,
    exc_map (fun o => haversine_km lat0 lon0 (lat o) (lon o)) objs = Ok ds /\
    near = filter (fun x => (x.2 <=? radius)%float = true) (zip objs ds).
Proof.
  revert near. induction objs as [|o objs IH]; intros near; simpl.
  - intros [= <-]. by exists [].
  - destruct (haversine_km lat0 lon0 (lat o) (lon o)) as [d|e]; simpl;
      [|done].
    destruct (collect_around lat0 lon0 objs radius) as [rest|e]; simpl;
      [|done].
    destruct (IH rest eq_refl) as (ds & -> & Hrest).
    intros [= <-]. exists (d :: ds). split; [done|]. simpl.
    rewrite filter_cons. simpl. rewrite <- Hrest.
    by destruct (d <=? radius)%float; case_decide.
Qed.

Lemma exc_map_Ok_zip {A B} (f : A -> exc B) (l : list A) ys x y :
  exc_map f l = Ok ys -> (x, y) ∈ zip l ys -> x ∈ l /\ f x = Ok y.
Proof.
  revert ys. induction l as [|x' l IH]; intros ys; simpl.
  - by intros _ ?%elem_of_nil.
  - destruct (f x') as [y'|] eqn:Hx; simpl; [|done].
    destruct (exc_map f l) as [ys'|]; simpl; [|done].
    intros [= <-]. simpl. rewrite !elem_of_cons.
    intros [[= -> ->]|Hin]; [by auto|].
    destruct (IH ys' eq_refl Hin). auto.
Qed.

Lemma exc_map_Ok_elem {A B} (f : A -> exc B) (l : list A) ys x y :
  exc_map f l = Ok ys -> x ∈ l -> f x = Ok y -> (x, y) ∈ zip l ys.
Proof.
  revert ys. induction l as [|x' l IH]; intros ys; simpl.
  - by intros _ ?%elem_of_nil.
  - destruct (f x') as [y'|] eqn:Hx; simpl; [|done].
    destruct (exc_map f l) as [ys'|]; simpl; [|done].
    intros [= <-]. simpl. rewrite !elem_of_cons.
    intros [->|Hin] Hy; [left; congruence|right; eauto].
Qed.

Lemma collect_around_elem lat0 lon0 objs radius near o d :
  collect_around lat0 lon0 objs radius = Ok near ->
  (o, d) ∈ near <->
  o ∈ objs /\ haversine_km lat0 lon0 (lat o) (lon o) = Ok d /\
  (d <=? radius)%float = true.
Proof.
  intros (ds & Hds & ->)%collect_around_Ok.
  rewrite list_elem_of_filter. simpl. split.
  - intros [Hd Hin]. by destruct (exc_map_Ok_zip _ _ _ _ _ Hds Hin).
  - intros (Ho & Hd & Hle). split; [done|]. by eapply exc_map_Ok_elem.
Qed.
End collection.

Section evaluation.
Context `{M : Libm}.
#[local] Arguments category_rules : simpl never.

Lemma nearest_Raise lat0 lon0 objs t e :
  nearest lat0 lon0 objs t = Raise e ->
  exists o, o ∈ objs /\ haversine_km lat0 lon0 (lat o) (lon o) = Raise e.
Proof.
  unfold nearest.
  destruct (exc_map _ _) as [ds|e'] eqn:Hds; simpl.
  - by destruct ds.
  - intros [= ->]. apply exc_map_Raise in Hds as (o & Ho & He).
    apply list_elem_of_filter in Ho as [_ Ho]. eauto.
Qed.

Lemma category_rules_industry near_home near_school near_park near_ind :
  exists plus minus,
    category_rules industry near_home near_school near_park near_ind =
    (plus ++ [msg_jobs], minus ++ [msg_air]).
Proof.
  unfold category_rules.
  rewrite !bool_decide_eq_false_2 by done.
  rewrite bool_decide_eq_true_2 by done.
  destruct (within near_home 3.0), (within near_school 3.5);
    unfold plus_append, minus_append; simpl.
  - by eexists [], [_; _].
  - by eexists [_], [_].
  - by eexists [_], [_].
  - by eexists [_; _], [].
Qed.

(** C2.  With an empty list of other objects, [evaluate_location] returns,
    for every category and every coordinate, the first-point statement as
    the only supporting statement and no concerning statement. *)
Theorem evaluate_location_empty t lat0 lon0 :
  evaluate_location t lat0 lon0 [] = Ok ([msg_first_point], []).
Proof. reflexivity. Qed.

(** C1 (amended).  For the category industry, every coordinate and every
    non-empty list of other objects, the output of [evaluate_location] has
    the jobs statement among the supporting statements and the air-quality
    statement among the concerning ones; the only other outcome is the
    exception of a distance computation to one of the objects. *)
Theorem evaluate_location_industry lat0 lon0 objs :
  objs <> [] ->
  match evaluate_location industry lat0 lon0 objs with
  | Ok (plus, minus) => msg_jobs ∈ plus /\ msg_air ∈ minus
  | Raise e =>
      exists o, o ∈ objs /\ haversine_km lat0 lon0 (lat o) (lon o) = Raise e
  end.
Proof.
  intros Hobjs. unfold evaluate_location.
  destruct (nearest lat0 lon0 objs housing) as [nh|e] eqn:H1; cbn;
    [|by eapply nearest_Raise].
  destruct (nearest lat0 lon0 objs school) as [ns|e] eqn:H2; cbn;
    [|by eapply nearest_Raise].
  destruct (nearest lat0 lon0 objs park) as [np|e] eqn:H3; cbn;
    [|by eapply nearest_Raise].
  destruct (nearest lat0 lon0 objs industry) as [ni|e] eqn:H4; cbn;
    [|by eapply nearest_Raise].
  destruct objs as [|o objs]; [done|].
  destruct (category_rules_industry nh ns np ni) as (plus & minus & ->).
  destruct plus; simpl;
    rewrite ?elem_of_cons, !elem_of_app, !list_elem_of_singleton; auto.
Qed.
End evaluation.

Lemma evaluate_location_industry_witness :
  [sample_home] <> [] /\
  match
    evaluate_location (H := small_angle_libm) industry 49.9520 82.6310
      [sample_home]
  with
  | Ok (plus, minus) => msg_jobs ∈ plus /\ msg_air ∈ minus
  | Raise e =>
      exists o, o ∈ [sample_home] /\
        haversine_km (H := small_angle_libm) 49.9520 82.6310 (lat o) (lon o)
          = Raise e
  end.
Proof.
  split; [discriminate|].
  apply (evaluate_location_industry (M := small_angle_libm)). discriminate.
Defined.

(** C1 as stated fails on the empty list of other objects: the output for
    the category industry is then the first-point statement alone, with
    neither the jobs statement nor the air-quality statement. *)
Lemma evaluate_location_industry_empty :
  let out :=
    evaluate_location (H := small_angle_libm) industry
      DEFAULT_CENTER.1 DEFAULT_CENTER.2 [] in
  out = Ok ([msg_first_point], []) /\
  ~ (exists plus minus,
       out = Ok (plus, minus) /\ msg_jobs ∈ plus /\ msg_air ∈ minus).
Proof.
  split; [reflexivity|].
  intros (plus & minus & [= <- <-] & _ & Hair). by apply elem_of_nil in Hair.
Qed.

(** ** Perimeter analyzer *)

Implicit Types (near : list (CityObject * float)).

Lemma insert_by_distance_Permutation x near :
  insert_by_distance x near ≡ₚ x :: near.
Proof.
  induction near as [|y near IH]; simpl; [done|].
  destruct (y.2 <? x.2)%float; [|done].
  rewrite IH. apply Permutation_swap.
Qed.

Lemma sorted_by_distance_Permutation near : sorted_by_distance near ≡ₚ near.
Proof.
  induction near as [|x near IH]; simpl; [done|].
  by rewrite insert_by_distance_Permutation, IH.
Qed.

Lemma insert_by_distance_sorted radius x near :
  (x.2 <=? radius)%float = true ->
  Forall (fun y => (y.2 <=? radius)%float = true) near ->
  StronglySorted dist_le near ->
  StronglySorted dist_le (insert_by_distance x near).
Proof.
  intros Hx. induction near as [|y near IH]; simpl; intros Hall Hs.
  - by repeat constructor.
  - apply Forall_cons in Hall as [Hy Hall].
    apply StronglySorted_inv in Hs as [Hs Hyle].
    destruct (y.2 <? x.2)%float eqn:Hlt.
    + constructor; [by apply IH|].
      rewrite insert_by_distance_Permutation. constructor; [|done].
      by apply float_ltb_leb.
    + assert (dist_le x y) as Hxy by (by eapply float_leb_total).
      constructor; [by constructor|]. constructor; [done|].
      eapply Forall_impl; [done|]. intros z Hz.
      by eapply float_leb_trans.
Qed.

Lemma sorted_by_distance_sorted radius near :
  Forall (fun y => (y.2 <=? radius)%float = true) near ->
  StronglySorted dist_le (sorted_by_distance near).
Proof.
  induction near as [|x near IH]; simpl; intros Hall; [constructor|].
  apply Forall_cons in Hall as [Hx Hall].
  eapply insert_by_distance_sorted; [done| |by apply IH].
  by rewrite sorted_by_distance_Permutation.
Qed.

(** [counts] holds, for each category, the number of collected objects of
    that category. *)
Lemma count_types_lookup near t :
  default 0 (count_types near !! t) =
  length (filter (fun x : CityObject * float => obj_type x.1 = t) near).
Proof.
  unfold count_types.
  enough (forall c : gmap string nat,
    default 0 (fold_left
      (fun (c : gmap string nat) (x : CityObject * float) =>
         <[obj_type x.1 := default 0 (c !! obj_type x.1) + 1]> c) near c !! t)
    = default 0 (c !! t) +
      length (filter (fun x : CityObject * float => obj_type x.1 = t) near))
    as H by (by rewrite H).
  induction near as [|x near IH]; intros c; simpl; [lia|].
  rewrite IH, filter_cons. destruct (decide (obj_type x.1 = t)) as [->|Hne].
  - rewrite lookup_insert_eq. simpl. lia.
  - by rewrite lookup_insert_ne.
Qed.

Section analysis.
Context `{M : Libm}.
Implicit Types (o : CityObject) (d radius : float).

Lemma analyze_perimeter_Raise lat0 lon0 objs radius e :
  analyze_perimeter lat0 lon0 objs radius = Raise e ->
  exists o, o ∈ objs /\ haversine_km lat0 lon0 (lat o) (lon o) = Raise e.
Proof.
  unfold analyze_perimeter.
  destruct (collect_around lat0 lon0 objs radius) as [near|e'] eqn:Hc;
    simpl; [done|].
  intros [= ->]. by eapply collect_around_Raise.
Qed.

Lemma collect_around_within lat0 lon0 objs radius near :
  collect_around lat0 lon0 objs radius = Ok near ->
  Forall (fun x => (x.2 <=? radius)%float = true) near.
Proof.
  intros (ds & _ & ->)%collect_around_Ok. apply Forall_forall.
  by intros x [Hx _]%list_elem_of_filter.
Qed.

(** C5.  In the result of [analyze_perimeter], [school_gap] is
    [0.25 * residents - school_capacity] in binary64 arithmetic, where
    [residents] is the sum of the residents parameter over the housing
    objects within the radius and [school_capacity] the sum of the capacity
    parameter over the schools within the radius.  The analysis returns
    unless a distance computation raises. *)
Theorem analyze_perimeter_school_gap lat0 lon0 objs radius :
  match analyze_perimeter lat0 lon0 objs radius with
  | Ok r =>
      school_gap r = (0.25 * residents r - school_capacity r)%float /\
      exists ds,
        exc_map (fun o => haversine_km lat0 lon0 (lat o) (lon o)) objs
          = Ok ds /\
        let near :=
          filter (fun x => (x.2 <=? radius)%float = true) (zip objs ds) in
        residents r = py_sum (residents_items near) /\
        school_capacity r = py_sum (capacity_items near)
  | Raise e =>
      exists o, o ∈ objs /\ haversine_km lat0 lon0 (lat o) (lon o) = Raise e
  end.
Proof.
  destruct (analyze_perimeter lat0 lon0 objs radius) as [r|e] eqn:Hr;
    [|by eapply analyze_perimeter_Raise].
  unfold analyze_perimeter in Hr.
  destruct (collect_around lat0 lon0 objs radius) as [near|] eqn:Hc;
    simpl in Hr; [|done].
  injection Hr as <-. simpl. split; [by rewrite float_mul_comm|].
  apply collect_around_Ok in Hc as (ds & Hds & ->). by exists ds.
Qed.

(** C6.  The [around] list of the result holds the pairs of an object and
    its distance for exactly the objects whose distance to the center is at
    most the radius (as a multiset: it is a permutation of the filtered
    registry), in ascending order of distance.  So an object at a distance
    greater than the radius is left out, and an object at distance 0 is in
    the list as soon as the radius is not negative. *)
Theorem analyze_perimeter_around lat0 lon0 objs radius :
  match analyze_perimeter lat0 lon0 objs radius with
  | Ok r =>
      (forall o d,
         (o, d) ∈ around r <->
         o ∈ objs /\ haversine_km lat0 lon0 (lat o) (lon o) = Ok d /\
         (d <=? radius)%float = true) /\
      (exists ds,
         exc_map (fun o => haversine_km lat0 lon0 (lat o) (lon o)) objs
           = Ok ds /\
         around r ≡ₚ
           filter (fun x => (x.2 <=? radius)%float = true) (zip objs ds)) /\
      StronglySorted dist_le (around r) /\
      (forall o d,
         o ∈ objs -> haversine_km lat0 lon0 (lat o) (lon o) = Ok d ->
         (radius <? d)%float = true -> (o, d) ∉ around r) /\
      (forall o,
         o ∈ objs -> haversine_km lat0 lon0 (lat o) (lon o) = Ok 0%float ->
         (0 <=? radius)%float = true -> (o, 0%float) ∈ around r)
  | Raise e =>
      exists o, o ∈ objs /\ haversine_km lat0 lon0 (lat o) (lon o) = Raise e
  end.
Proof.
  destruct (analyze_perimeter lat0 lon0 objs radius) as [r|e] eqn:Hr;
    [|by eapply analyze_perimeter_Raise].
  unfold analyze_perimeter in Hr.
  destruct (collect_around lat0 lon0 objs radius) as [near|] eqn:Hc;
    simpl in Hr; [|done].
  injection Hr as <-. simpl.
  assert (forall o d,
    (o, d) ∈ sorted_by_distance near <->
    o ∈ objs /\ haversine_km lat0 lon0 (lat o) (lon o) = Ok d /\
    (d <=? radius)%float = true) as Hin.
  { intros o d. rewrite sorted_by_distance_Permutation.
    by apply collect_around_elem. }
  split_and!.
  - done.
  - pose proof Hc as (ds & Hds & ->)%collect_around_Ok.
    exists ds. split; [done|]. apply sorted_by_distance_Permutation.
  - eapply sorted_by_distance_sorted, collect_around_within; done.
  - intros o d _ _ Hlt%float_ltb_not_leb [_ [_ Hle]]%Hin. congruence.
  - intros o Ho Hd Hle. by apply Hin.
Qed.

(** C10.  An object whose distance to the center equals the radius is in
    the [around] list and in every aggregate: it is counted in [counts] (and
    in [parks] if it is a park), and its term is one of the items summed for
    [residents], [school_capacity] or [industry_emission] if it is a
    housing, school or industrial object. *)
Theorem analyze_perimeter_boundary lat0 lon0 objs radius o d :
  o ∈ objs -> haversine_km lat0 lon0 (lat o) (lon o) = Ok d ->
  (d =? radius)%float = true ->
  match analyze_perimeter lat0 lon0 objs radius with
  | Ok r =>
      (o, d) ∈ around r /\
      1 <= default 0 (counts r !! obj_type o) /\
      (obj_type o = park -> 1 <= parks r) /\
      exists near,
        collect_around lat0 lon0 objs radius = Ok near /\
        (o, d) ∈ near /\
        residents r = py_sum (residents_items near) /\
        school_capacity r = py_sum (capacity_items near) /\
        industry_emission r = py_sum (emission_items near) /\
        (obj_type o = housing ->
           param o "residents" ∈ residents_items near) /\
        (obj_type o = school ->
           param o "capacity" ∈ capacity_items near) /\
        (obj_type o = industry ->
           (param o "emission" * (1.0 - param o "filters_eff"))%float
             ∈ emission_items near)
  | Raise e =>
      exists o', o' ∈ objs /\
        haversine_km lat0 lon0 (lat o') (lon o') = Raise e
  end.
Proof.
  intros Ho Hd Heq%float_eqb_leb.
  destruct (analyze_perimeter lat0 lon0 objs radius) as [r|e] eqn:Hr;
    [|by eapply analyze_perimeter_Raise].
  unfold analyze_perimeter in Hr.
  destruct (collect_around lat0 lon0 objs radius) as [near|] eqn:Hc;
    simpl in Hr; [|done].
  injection Hr as <-. simpl.
  assert ((o, d) ∈ near) as Hin by (by eapply collect_around_elem).
  assert (1 <= default 0 (count_types near !! obj_type o)) as Hcount.
  { rewrite count_types_lookup.
    assert ((o, d) ∈ filter
      (fun x : CityObject * float => obj_type x.1 = obj_type o) near) as Hf
      by (by apply list_elem_of_filter).
    destruct (filter _ near); [by apply elem_of_nil in Hf|simpl; lia]. }
  split_and!.
  - by rewrite sorted_by_distance_Permutation.
  - done.
  - by intros <-.
  - exists near. split_and!; try done.
    + intros Ht. apply list_elem_of_fmap.
      exists (o, d). split; [done|]. by apply list_elem_of_filter.
    + intros Ht. apply list_elem_of_fmap.
      exists (o, d). split; [done|]. by apply list_elem_of_filter.
    + intros Ht. apply list_elem_of_fmap.
      exists (o, d). split; [done|]. by apply list_elem_of_filter.
Qed.
End analysis.

Lemma analyze_perimeter_boundary_witness :
  sample_school ∈ [sample_home; sample_school] /\
  haversine_km (H := small_angle_libm) 49.9483 82.6285
    (lat sample_school) (lon sample_school) = Ok sample_distance /\
  (sample_distance =? sample_distance)%float = true /\
  match
    analyze_perimeter (H := small_angle_libm) 49.9483 82.6285
      [sample_home; sample_school] sample_distance
  with
  | Ok r =>
      (sample_school, sample_distance) ∈ around r /\
      1 <= default 0 (counts r !! school)
  | Raise e =>
      exists o, o ∈ [sample_home; sample_school] /\
        haversine_km (H := small_angle_libm) 49.9483 82.6285 (lat o) (lon o)
          = Raise e
  end.
Proof.
  assert (sample_school ∈ [sample_home; sample_school]) as Hin
    by (right; left).
  split; [exact Hin|]. split; [reflexivity|]. split; [reflexivity|].
  pose proof (analyze_perimeter_boundary (M := small_angle_libm)
                49.9483 82.6285 [sample_home; sample_school] sample_distance
                sample_school sample_distance Hin eq_refl eq_refl) as H.
  destruct (analyze_perimeter _ _ _ _) as [r|e]; [|exact H].
  destruct H as (Haround & Hcount & _). split; [exact Haround|exact Hcount].
Defined.

(** ** Registry *)

Lemma py_not_false sid : py_not (Some sid) = false <-> sid <> EmptyString.
Proof. simpl. by rewrite bool_decide_eq_false. Qed.

Lemma filter_other_ids sid (l : list CityObject) :
  sid ∉ id <$> l -> filter (fun o => Some (id o) ≠ Some sid) l = l.
Proof.
  induction l as [|o l IH]; [done|]. rewrite fmap_cons, not_elem_of_cons.
  intros [Ho Hl]. rewrite filter_cons_True by congruence. by rewrite IH.
Qed.

(** With unique identifiers the comprehension of [delete_selected] removes
    one object. *)
Lemma filter_selected_id sid l1 o l2 :
  NoDup (id <$> (l1 ++ o :: l2)) -> id o = sid ->
  filter (fun o' => Some (id o') ≠ Some sid) (l1 ++ o :: l2) = l1 ++ l2.
Proof.
  rewrite fmap_app, fmap_cons. intros Hnd <-.
  apply NoDup_app in Hnd as (_ & H1 & [H2 _]%NoDup_cons).
  rewrite filter_app, filter_cons_False by naive_solver.
  rewrite !filter_other_ids; [done..|].
  intros Hin. by apply (H1 (id o)); [|left].
Qed.

Lemma move_first_ids sid lat0 lon0 objs objs' :
  move_first sid lat0 lon0 objs = Some objs' -> id <$> objs' = id <$> objs.
Proof.
  revert objs'. induction objs as [|o objs IH]; intros objs'; simpl; [done|].
  case_bool_decide.
  - intros [= <-]. done.
  - destruct (move_first sid lat0 lon0 objs) as [l|]; simpl; [|done].
    intros [= <-]. rewrite fmap_cons. by rewrite (IH l).
Qed.

Lemma move_first_is_Some sid lat0 lon0 objs :
  sid ∈ id <$> objs -> is_Some (move_first (Some sid) lat0 lon0 objs).
Proof.
  induction objs as [|o objs IH]; simpl.
  - by intros ?%elem_of_nil.
  - rewrite elem_of_cons. intros Hin. case_bool_decide as Ho; [done|].
    destruct Hin as [->|Hin]; [done|].
    destruct (IH Hin) as [l ->]. done.
Qed.

Lemma selected_id_nonempty st sid :
  registry_inv st -> selected_id st = Some sid -> sid <> EmptyString.
Proof.
  intros [[_ Hne] Hsel] Hs. unfold selection_inv in Hsel. rewrite Hs in Hsel.
  apply list_elem_of_fmap in Hsel as (o & -> & Ho).
  rewrite Forall_forall in Hne. by apply Hne.
Qed.

Lemma registry_inv_init : registry_inv init_state.
Proof. repeat split; simpl; [apply NoDup_nil_2|done]. Qed.

(** The identifier invariant is kept as long as [new_id] draws a fresh,
    non-empty identifier. *)
Lemma ids_inv_add_object nid t lat0 lon0 st :
  nid <> EmptyString -> nid ∉ id <$> objects st ->
  ids_inv st -> ids_inv (add_object nid t lat0 lon0 st).
Proof.
  intros Hne Hfresh [Hnd Hall]. split; simpl.
  - rewrite fmap_app. apply NoDup_app. split_and!; [done| |].
    + intros x Hx [->|[]%elem_of_nil]%elem_of_cons. done.
    + apply NoDup_singleton.
  - apply Forall_app. split; [done|]. by apply Forall_singleton.
Qed.

Lemma ids_inv_delete_selected st : ids_inv st -> ids_inv (delete_selected st).2.
Proof.
  intros [Hnd Hall]. unfold delete_selected.
  destruct (py_not (selected_id st)); [done|]. split; simpl.
  - eapply sublist_NoDup; [done|]. apply fmap_sublist, sublist_filter.
  - rewrite Forall_forall in Hall |- *.
    intros o [_ Ho]%list_elem_of_filter. by apply Hall.
Qed.

Lemma ids_inv_move_selected lat0 lon0 st :
  ids_inv st -> ids_inv (move_selected lat0 lon0 st).2.
Proof.
  intros [Hnd Hall]. unfold move_selected.
  destruct (py_not (selected_id st)); [done|].
  destruct (move_first _ _ _ _) as [objs'|] eqn:Hm; [|done].
  pose proof (move_first_ids _ _ _ _ _ Hm) as Hids.
  split; simpl; [by rewrite Hids|].
  rewrite Forall_forall in Hall |- *. intros o Ho.
  apply (list_elem_of_fmap_2 id) in Ho. rewrite Hids in Ho.
  apply list_elem_of_fmap in Ho as (o' & -> & Ho'). by apply Hall.
Qed.

(** In a registry with a selection, [get_selected_obj] finds the object that
    carries the selected identifier. *)
Lemma get_selected_obj_selected st sid :
  selection_inv st -> selected_id st = Some sid ->
  exists o, get_selected_obj st = Some o /\ id o = sid /\ o ∈ objects st.
Proof.
  unfold selection_inv, get_selected_obj. intros Hsel Hs. rewrite Hs in *.
  induction (objects st) as [|o objs IH]; simpl.
  - by apply elem_of_nil in Hsel.
  - case_bool_decide as Ho.
    + exists o. split_and!; [done|congruence|by left].
    + rewrite fmap_cons, elem_of_cons in Hsel.
      destruct Hsel as [->|Hsel]; [done|].
      destruct (IH Hsel) as (o' & ? & ? & ?).
      exists o'. split_and!; [done..|by right].
Qed.

(** C7.  When nothing is selected, [delete_selected] returns false and
    leaves the session state, so the object sequence and the selection,
    unchanged. *)
Theorem delete_selected_nothing_selected st :
  selected_id st = None -> delete_selected st = (false, st).
Proof. intros Hs. unfold delete_selected. by rewrite Hs. Qed.

Lemma delete_selected_nothing_selected_witness :
  selected_id init_state = None /\
  delete_selected init_state = (false, init_state).
Proof.
  split; [reflexivity|]. apply delete_selected_nothing_selected. reflexivity.
Defined.

Lemma sample_state_inv : registry_inv sample_state.
Proof. apply (bool_decide_unpack _). vm_compute. exact I. Qed.

(** C3.  In a registry (unique, non-empty identifiers) whose selected
    identifier is that of an object of the sequence, [delete_selected]
    removes that one object, returns true and selects the first remaining
    object, or nothing when no object remains. *)
Theorem delete_selected_removes_selected st sid :
  registry_inv st -> selected_id st = Some sid ->
  exists l1 o l2,
    objects st = l1 ++ o :: l2 /\ id o = sid /\
    delete_selected st =
      (true, with_registry st (l1 ++ l2) (id <$> head (l1 ++ l2))).
Proof.
  intros Hinv Hs. pose proof (selected_id_nonempty _ _ Hinv Hs) as Hne.
  destruct Hinv as [[Hnd _] Hsel]. unfold selection_inv in Hsel.
  rewrite Hs in Hsel. apply list_elem_of_fmap in Hsel as (o & -> & Ho).
  apply list_elem_of_split in Ho as (l1 & l2 & Hl).
  exists l1, o, l2. split_and!; [done..|].
  unfold delete_selected. rewrite Hs.
  rewrite (proj2 (py_not_false _) Hne), Hl.
  rewrite Hl in Hnd. rewrite (filter_selected_id _ _ _ _ Hnd eq_refl).
  f_equal.
  - apply bool_decide_eq_true. rewrite !length_app. simpl. lia.
  - f_equal. by destruct (l1 ++ l2).
Qed.

Lemma delete_selected_removes_selected_witness :
  registry_inv sample_state /\
  selected_id sample_state = Some "b04e77a912"%string /\
  exists l1 o l2,
    objects sample_state = l1 ++ o :: l2 /\ id o = "b04e77a912"%string /\
    delete_selected sample_state =
      (true,
       with_registry sample_state (l1 ++ l2) (id <$> head (l1 ++ l2))).
Proof.
  split; [exact sample_state_inv|]. split; [reflexivity|].
  apply delete_selected_removes_selected;
    [exact sample_state_inv|reflexivity].
Defined.

(** C4.  In a registry, [move_selected] returns false when nothing is
    selected and true when an identifier is selected. *)
Theorem move_selected_returns lat0 lon0 st :
  registry_inv st ->
  (selected_id st = None -> (move_selected lat0 lon0 st).1 = false) /\
  (selected_id st <> None -> (move_selected lat0 lon0 st).1 = true).
Proof.
  intros Hinv. split; intros Hs; unfold move_selected.
  - by rewrite Hs.
  - destruct (selected_id st) as [sid|] eqn:Hsid; [|done].
    rewrite (proj2 (py_not_false _) (selected_id_nonempty _ _ Hinv Hsid)).
    destruct Hinv as [_ Hsel]. unfold selection_inv in Hsel.
    rewrite Hsid in Hsel.
    by destruct (move_first_is_Some _ lat0 lon0 _ Hsel) as [l ->].
Qed.

Lemma move_selected_returns_witness :
  registry_inv sample_state /\
  (selected_id sample_state = None ->
   (move_selected 49.9490 82.6290 sample_state).1 = false) /\
  (selected_id sample_state <> None ->
   (move_selected 49.9490 82.6290 sample_state).1 = true).
Proof.
  split; [exact sample_state_inv|].
  apply move_selected_returns. exact sample_state_inv.
Defined.

Lemma selection_inv_add_object nid t lat0 lon0 st :
  selection_inv (add_object nid t lat0 lon0 st).
Proof.
  unfold selection_inv. simpl. rewrite fmap_app, elem_of_app. right.
  by apply list_elem_of_singleton.
Qed.

Lemma selection_inv_delete_selected st :
  selection_inv st -> selection_inv (delete_selected st).2.
Proof.
  intros Hsel. unfold delete_selected.
  destruct (py_not (selected_id st)); [done|].
  unfold selection_inv. simpl.
  destruct (filter _ _) as [|o l]; [done|]. rewrite fmap_cons. by left.
Qed.

Lemma selection_inv_move_selected lat0 lon0 st :
  selection_inv st -> selection_inv (move_selected lat0 lon0 st).2.
Proof.
  intros Hsel. unfold move_selected.
  destruct (py_not (selected_id st)); [done|].
  destruct (move_first _ _ _ _) as [objs'|] eqn:Hm; [|done].
  unfold selection_inv in *. simpl.
  destruct (selected_id st); [|done].
  by rewrite (move_first_ids _ _ _ _ _ Hm).
Qed.

(** The invariant of the registry holds in every reachable state. *)
Lemma reachable_registry_inv st : reachable st -> registry_inv st.
Proof.
  induction 1 as [|nid t lat0 lon0 st _ [Hids Hsel] Hne Hfresh
                  |st _ [Hids Hsel]|lat0 lon0 st _ [Hids Hsel]
                  |o st _ [Hids Hsel] Ho].
  - apply registry_inv_init.
  - split; [by apply ids_inv_add_object|apply selection_inv_add_object].
  - split; [by apply ids_inv_delete_selected
           |by apply selection_inv_delete_selected].
  - split; [by apply ids_inv_move_selected
           |by apply selection_inv_move_selected].
  - split; [done|]. unfold selection_inv. simpl.
    by apply list_elem_of_fmap_2.
Qed.

(** C8.  The selection invariant (the selected identifier, of which the
    state holds at most one, is unset or is the identifier of an object of
    the sequence) is kept by [add_object], [delete_selected] and
    [move_selected]. *)
Theorem selection_inv_preserved nid t lat0 lon0 st :
  selection_inv st ->
  selection_inv (add_object nid t lat0 lon0 st) /\
  selection_inv (delete_selected st).2 /\
  selection_inv (move_selected lat0 lon0 st).2.
Proof.
  intros Hsel. split_and!.
  - apply selection_inv_add_object.
  - by apply selection_inv_delete_selected.
  - by apply selection_inv_move_selected.
Qed.

Lemma selection_inv_preserved_witness :
  selection_inv sample_state /\
  selection_inv
    (add_object "77c1d05e3a" park 49.9490 82.6290 sample_state) /\
  selection_inv (delete_selected sample_state).2 /\
  selection_inv (move_selected 49.9490 82.6290 sample_state).2.
Proof.
  assert (selection_inv sample_state) as Hsel
    by (apply (bool_decide_unpack _); vm_compute; exact I).
  split; [exact Hsel|]. apply selection_inv_preserved. exact Hsel.
Defined.

(** * Further properties *)

(** ** Nearest object of a category *)

Lemma float_ltb_irrefl x : (x <? x)%float = false.
Proof.
  apply not_true_iff_false. rewrite float_ltb_key.
  intros (a & b & Ha & Hb & Hlt). rewrite Ha in Hb. simplify_eq.
  by apply key_lt_irrefl in Hlt.
Qed.

Lemma float_ltb_trans x y z :
  (x <? y)%float = true -> (y <? z)%float = true -> (x <? z)%float = true.
Proof.
  rewrite !float_ltb_key.
  intros (a & b & Ha & Hb & Hab) (b' & c & Hb' & Hc & Hbc).
  rewrite Hb in Hb'. simplify_eq. exists a, c.
  split_and!; [done..|]. by eapply key_lt_trans.
Qed.

(** [min] returns its first item or a strictly smaller one. *)
Lemma py_min_first first rest :
  py_min first rest = first \/ (py_min first rest <? first)%float = true.
Proof.
  unfold py_min. revert first.
  induction rest as [|d rest IH]; intros first; simpl; [by left|].
  destruct (d <? first)%float eqn:Hd; [|apply IH].
  destruct (IH d) as [->|Hlt]; right; [done|].
  by eapply float_ltb_trans.
Qed.

(** [min] returns one of the items, and no item is strictly smaller. *)
Lemma py_min_spec first rest :
  py_min first rest ∈ first :: rest /\
  forall d, d ∈ first :: rest -> (d <? py_min first rest)%float = false.
Proof.
  revert first. induction rest as [|d' rest IH]; intros first.
  - split; [by left|]. intros d ->%list_elem_of_singleton.
    apply float_ltb_irrefl.
  - change (py_min first (d' :: rest))
      with (py_min (if (d' <? first)%float then d' else first) rest).
    set (cur := if (d' <? first)%float then d' else first).
    destruct (IH cur) as [Hin Hmin]. split.
    + apply elem_of_cons in Hin as [->|Hin]; [|by do 2 right].
      subst cur. destruct (d' <? first)%float; [right; left|left].
    + intros d Hd. apply not_true_iff_false. intros Hlt.
      assert (forall x, x ∈ cur :: rest -> (x <? py_min cur rest)%float <> true)
        as Hmin' by (intros x Hx; by rewrite (Hmin x Hx)).
      pose proof (py_min_first cur rest) as Hfirst.
      apply elem_of_cons in Hd as [->|[->|Hd]%elem_of_cons].
      * subst cur. destruct (d' <? first)%float eqn:Hd'.
        -- apply (Hmin' d'); [by left|]. by eapply float_ltb_trans.
        -- by apply (Hmin' first); [left|].
      * subst cur. destruct (d' <? first)%float eqn:Hd'.
        -- by apply (Hmin' d'); [left|].
        -- destruct Hfirst as [Heq|Hlt'].
           ++ rewrite Heq in Hlt. congruence.
           ++ rewrite (float_ltb_trans _ _ _ Hlt Hlt') in Hd'. done.
      * by apply (Hmin' d); [right|].
Qed.

Lemma float_leb_refl x : is_nan x = false -> (x <=? x)%float = true.
Proof.
  intros Hn%not_true_iff_false. rewrite float_is_nan_SF in Hn.
  apply float_leb_key. unfold float_key.
  destruct (Prim2SF x) as [s|s| |s m e] eqn:Hx; [..|done|]; simpl; eauto 6.
Qed.

Lemma exc_map_Ok_inv_r {A B} (f : A -> exc B) (l : list A) ys y :
  exc_map f l = Ok ys -> y ∈ ys -> exists x, x ∈ l /\ f x = Ok y.
Proof.
  revert ys. induction l as [|x l IH]; intros ys; simpl.
  - intros [= <-] []%elem_of_nil.
  - destruct (f x) as [y'|] eqn:Hx; simpl; [|done].
    destruct (exc_map f l) as [ys'|]; simpl; [|done].
    intros [= <-] [->|Hin]%elem_of_cons.
    + exists x. split; [by left|done].
    + destruct (IH ys' eq_refl Hin) as (x' & ? & ?).
      exists x'. split; [by right|done].
Qed.

Lemma exc_map_Ok_inv_l {A B} (f : A -> exc B) (l : list A) ys x :
  exc_map f l = Ok ys -> x ∈ l -> exists y, y ∈ ys /\ f x = Ok y.
Proof.
  revert ys. induction l as [|x' l IH]; intros ys; simpl.
  - by intros _ ?%elem_of_nil.
  - destruct (f x') as [y'|] eqn:Hx; simpl; [|done].
    destruct (exc_map f l) as [ys'|]; simpl; [|done].
    intros [= <-] [->|Hin]%elem_of_cons.
    + exists y'. split; [by left|done].
    + destruct (IH ys' eq_refl Hin) as (y & ? & ?).
      exists y. split; [by right|done].
Qed.

Section nearest.
Context `{M : Libm}.

Lemma nearest_None lat0 lon0 objs t :
  nearest lat0 lon0 objs t = Ok None ->
  forall o, o ∈ objs -> obj_type o <> t.
Proof.
  unfold nearest.
  destruct (exc_map _ _) as [[|d ds]|e] eqn:Hds; simpl; [|done..].
  intros _ o Ho Ht.
  assert (o ∈ filter (fun o => obj_type o = t) objs) as Hin
    by (by apply list_elem_of_filter).
  destruct (exc_map_Ok_inv_l _ _ _ _ Hds Hin) as (y & []%elem_of_nil & _).
Qed.

Lemma nearest_Some lat0 lon0 objs t d :
  nearest lat0 lon0 objs t = Ok (Some d) ->
  (exists o, o ∈ objs /\ obj_type o = t /\
     haversine_km lat0 lon0 (lat o) (lon o) = Ok d) /\
  (forall o d', o ∈ objs -> obj_type o = t ->
     haversine_km lat0 lon0 (lat o) (lon o) = Ok d' ->
     (d' <? d)%float = false).
Proof.
  unfold nearest.
  destruct (exc_map _ _) as [[|d0 ds]|e] eqn:Hds; simpl; [done| |done].
  intros [= <-]. destruct (py_min_spec d0 ds) as [Hin Hmin]. split.
  - destruct (exc_map_Ok_inv_r _ _ _ _ Hds Hin) as (o & Ho & Hd).
    apply list_elem_of_filter in Ho as [Ht Ho]. eauto.
  - intros o d' Ho Ht Hd'. apply Hmin.
    assert (o ∈ filter (fun o => obj_type o = t) objs) as Hin'
      by (by apply list_elem_of_filter).
    destruct (exc_map_Ok_inv_l _ _ _ _ Hds Hin') as (y & Hy & Hy').
    congruence.
Qed.

Lemma nearest_Raise_type lat0 lon0 objs t e :
  nearest lat0 lon0 objs t = Raise e ->
  exists o, o ∈ objs /\ obj_type o = t /\
    haversine_km lat0 lon0 (lat o) (lon o) = Raise e.
Proof.
  unfold nearest.
  destruct (exc_map _ _) as [[|d0 ds]|e'] eqn:Hds; simpl; [done..|].
  intros [= ->]. apply exc_map_Raise in Hds as (o & Ho & He).
  apply list_elem_of_filter in Ho as [Ht Ho]. eauto.
Qed.

(** X1.  [nearest] returns no distance exactly when no object has the
    category; otherwise it returns the distance of an object of the
    category, and no object of the category has a strictly smaller one.
    It raises only what a distance computation to such an object raises. *)
Theorem nearest_spec lat0 lon0 objs t :
  match nearest lat0 lon0 objs t with
  | Ok None => forall o, o ∈ objs -> obj_type o <> t
  | Ok (Some d) =>
      (exists o, o ∈ objs /\ obj_type o = t /\
         haversine_km lat0 lon0 (lat o) (lon o) = Ok d) /\
      (forall o d', o ∈ objs -> obj_type o = t ->
         haversine_km lat0 lon0 (lat o) (lon o) = Ok d' ->
         (d' <? d)%float = false)
  | Raise e =>
      exists o, o ∈ objs /\ obj_type o = t /\
        haversine_km lat0 lon0 (lat o) (lon o) = Raise e
  end.
Proof.
  destruct (nearest lat0 lon0 objs t) as [[d|]|e] eqn:Hn.
  - by apply nearest_Some.
  - by eapply nearest_None.
  - by apply nearest_Raise_type.
Qed.
End nearest.

(** ** Evaluation engine, further *)

Section evaluation_more.
Context `{M : Libm}.
#[local] Arguments category_rules : simpl never.

Lemma evaluate_location_Ok t lat0 lon0 objs v :
  evaluate_location t lat0 lon0 objs = Ok v ->
  exists nh ns np ni,
    nearest lat0 lon0 objs housing = Ok nh /\
    nearest lat0 lon0 objs school = Ok ns /\
    nearest lat0 lon0 objs park = Ok np /\
    nearest lat0 lon0 objs industry = Ok ni /\
    v = verdict_of t objs nh ns np ni.
Proof.
  unfold evaluate_location, verdict_of.
  destruct (nearest lat0 lon0 objs housing) as [nh|]; cbn; [|done].
  destruct (nearest lat0 lon0 objs school) as [ns|]; cbn; [|done].
  destruct (nearest lat0 lon0 objs park) as [np|]; cbn; [|done].
  destruct (nearest lat0 lon0 objs industry) as [ni|]; cbn; [|done].
  intros Hv. exists nh, ns, np, ni. split_and!; try done.
  destruct objs; [congruence|].
  destruct (category_rules t nh ns np ni).1; congruence.
Qed.

Lemma evaluate_location_Raise t lat0 lon0 objs e :
  evaluate_location t lat0 lon0 objs = Raise e ->
  exists o, o ∈ objs /\ haversine_km lat0 lon0 (lat o) (lon o) = Raise e.
Proof.
  unfold evaluate_location.
  destruct (nearest lat0 lon0 objs housing) as [nh|] eqn:H1; cbn;
    [|intros [= ->]; by eapply nearest_Raise].
  destruct (nearest lat0 lon0 objs school) as [ns|] eqn:H2; cbn;
    [|intros [= ->]; by eapply nearest_Raise].
  destruct (nearest lat0 lon0 objs park) as [np|] eqn:H3; cbn;
    [|intros [= ->]; by eapply nearest_Raise].
  destruct (nearest lat0 lon0 objs industry) as [ni|] eqn:H4; cbn;
    [|intros [= ->]; by eapply nearest_Raise].
  destruct objs; [done|].
  by destruct (category_rules t nh ns np ni).1.
Qed.

Lemma category_rules_unknown t nh ns np ni :
  t ∉ type <$> PALETTE -> category_rules t nh ns np ni = ([], []).
Proof.
  intros Ht. unfold category_rules.
  rewrite !bool_decide_eq_false_2; [done|intros ->; apply Ht..];
    apply (bool_decide_unpack _); by vm_compute.
Qed.

(** X2.  Whatever the category and the objects, the supporting list that
    [evaluate_location] returns is never empty. *)
Theorem evaluate_location_support_nonempty t lat0 lon0 objs :
  match evaluate_location t lat0 lon0 objs with
  | Ok (plus, minus) => plus <> []
  | Raise e =>
      exists o, o ∈ objs /\ haversine_km lat0 lon0 (lat o) (lon o) = Raise e
  end.
Proof.
  destruct (evaluate_location t lat0 lon0 objs) as [[plus minus]|e] eqn:He;
    [|by eapply evaluate_location_Raise].
  apply evaluate_location_Ok in He as (nh & ns & np & ni & _ & _ & _ & _ & Hv).
  unfold verdict_of in Hv. destruct objs; [by injection Hv as -> _|].
  destruct (category_rules t nh ns np ni) as [[|s l] m] eqn:Hc; simpl in Hv;
    by injection Hv as -> _.
Qed.

(** X3.  For a category outside the palette and a non-empty list of
    objects, the output is the fallback statement alone, with no concern. *)
Theorem evaluate_location_unknown_category t lat0 lon0 objs :
  t ∉ type <$> PALETTE -> objs <> [] ->
  match evaluate_location t lat0 lon0 objs with
  | Ok v => v = ([msg_fallback], [])
  | Raise e =>
      exists o, o ∈ objs /\ haversine_km lat0 lon0 (lat o) (lon o) = Raise e
  end.
Proof.
  intros Ht Hobjs.
  destruct (evaluate_location t lat0 lon0 objs) as [v|e] eqn:He;
    [|by eapply evaluate_location_Raise].
  apply evaluate_location_Ok in He as (nh & ns & np & ni & _ & _ & _ & _ & ->).
  unfold verdict_of. destruct objs; [done|].
  by rewrite category_rules_unknown.
Qed.

(** X4.  For a bridge and a non-empty list of objects, the output is the
    connectivity statement and the route-gap concern, whatever the
    neighbours. *)
Theorem evaluate_location_bridge lat0 lon0 objs :
  objs <> [] ->
  match evaluate_location bridge lat0 lon0 objs with
  | Ok v => v = ([msg_bridge_plus], [msg_bridge_minus])
  | Raise e =>
      exists o, o ∈ objs /\ haversine_km lat0 lon0 (lat o) (lon o) = Raise e
  end.
Proof.
  intros Hobjs.
  destruct (evaluate_location bridge lat0 lon0 objs) as [v|e] eqn:He;
    [|by eapply evaluate_location_Raise].
  apply evaluate_location_Ok in He as (nh & ns & np & ni & _ & _ & _ & _ & ->).
  unfold verdict_of. by destruct objs.
Qed.

(** X5.  For a park, an industrial object, a sports complex or a bridge
    the fallback statement is never part of the output: the rules of these
    categories always yield a supporting statement. *)
Theorem evaluate_location_no_fallback t lat0 lon0 objs :
  t ∈ [park; industry; sport; bridge] ->
  match evaluate_location t lat0 lon0 objs with
  | Ok (plus, minus) => msg_fallback ∉ plus
  | Raise e =>
      exists o, o ∈ objs /\ haversine_km lat0 lon0 (lat o) (lon o) = Raise e
  end.
Proof.
  intros Ht.
  destruct (evaluate_location t lat0 lon0 objs) as [[plus minus]|e] eqn:He;
    [|by eapply evaluate_location_Raise].
  apply evaluate_location_Ok in He as (nh & ns & np & ni & _ & _ & _ & _ & Hv).
  unfold verdict_of in Hv. destruct objs as [|o objs].
  - injection Hv as -> _. apply (bool_decide_unpack _). by vm_compute.
  - repeat (apply elem_of_cons in Ht as [->|Ht]);
      [..|by apply elem_of_nil in Ht];
      unfold category_rules, plus_append, minus_append in Hv;
      simpl in Hv.
    + destruct (within nh 1.5), (within ni 2.0); injection Hv as -> _;
        apply (bool_decide_unpack _); by vm_compute.
    + destruct (within nh 3.0), (within ns 3.5); injection Hv as -> _;
        apply (bool_decide_unpack _); by vm_compute.
    + destruct (within nh 2.0), (within np 1.5); injection Hv as -> _;
        apply (bool_decide_unpack _); by vm_compute.
    + injection Hv as -> _. apply (bool_decide_unpack _). by vm_compute.
Qed.

Lemma nearest_skip lat0 lon0 l1 o l2 t :
  obj_type o <> t ->
  nearest lat0 lon0 (l1 ++ o :: l2) t = nearest lat0 lon0 (l1 ++ l2) t.
Proof.
  intros Ht. unfold nearest.
  by rewrite !filter_app, filter_cons_False.
Qed.

(** X6.  An object whose category is not housing, school, park or industry
    has no influence on an evaluation, as long as another object is left:
    with or without it the outcome is the same. *)
Theorem evaluate_location_ignores_other_types t lat0 lon0 l1 o l2 :
  obj_type o ∉ reference_types -> l1 ++ l2 <> [] ->
  evaluate_location t lat0 lon0 (l1 ++ o :: l2)
  = evaluate_location t lat0 lon0 (l1 ++ l2).
Proof.
  intros Ht Hne. unfold evaluate_location.
  rewrite !nearest_skip
    by (intros Heq; apply Ht; rewrite Heq; unfold reference_types;
        set_solver).
  destruct (nearest lat0 lon0 (l1 ++ l2) housing); cbn; [|done].
  destruct (nearest lat0 lon0 (l1 ++ l2) school); cbn; [|done].
  destruct (nearest lat0 lon0 (l1 ++ l2) park); cbn; [|done].
  destruct (nearest lat0 lon0 (l1 ++ l2) industry); cbn; [|done].
  destruct (l1 ++ l2) eqn:E; [done|]. by destruct l1.
Qed.

(** X7.  For housing, if some school is at most 1.5 km away (the distances
    to the schools being numbers), the output has the school-nearby
    statement among the supporting ones and neither concern about
    schools. *)
Theorem evaluate_location_housing_school_near lat0 lon0 objs o d :
  o ∈ objs -> obj_type o = school ->
  haversine_km lat0 lon0 (lat o) (lon o) = Ok d ->
  (d <=? 1.5)%float = true ->
  (forall o' d', o' ∈ objs -> obj_type o' = school ->
     haversine_km lat0 lon0 (lat o') (lon o') = Ok d' -> is_nan d' = false) ->
  match evaluate_location housing lat0 lon0 objs with
  | Ok (plus, minus) =>
      msg_school_near ∈ plus /\
      (msg_school_none ∉ minus) /\ (msg_school_far ∉ minus)
  | Raise e =>
      exists o, o ∈ objs /\ haversine_km lat0 lon0 (lat o) (lon o) = Raise e
  end.
Proof.
  intros Ho Ht Hd Hle Hnum.
  destruct (evaluate_location housing lat0 lon0 objs)
    as [[plus minus]|e] eqn:He; [|by eapply evaluate_location_Raise].
  apply evaluate_location_Ok in He as (nh & ns & np & ni & _ & Hs & _ & _ & Hv).
  destruct ns as [m|]; [|by destruct (nearest_None _ _ _ _ Hs o Ho)].
  apply nearest_Some in Hs as [(o' & Ho' & Ht' & Hm) Hmin].
  assert ((m <=? 1.5)%float = true) as Hm15.
  { eapply float_leb_trans; [|exact Hle].
    eapply float_leb_total;
      [apply float_leb_refl; exact (Hnum o' m Ho' Ht' Hm)|exact Hle|].
    exact (Hmin o d Ho Ht Hd). }
  unfold verdict_of in Hv. destruct objs as [|o0 objs];
    [by apply elem_of_nil in Ho|].
  unfold category_rules, plus_append, minus_append in Hv. simpl in Hv.
  rewrite Hm15 in Hv. simpl in Hv.
  destruct (within np 1.2), (within ni 2.0); simpl in Hv;
    injection Hv as -> ->; split_and!;
    apply (bool_decide_unpack _); by vm_compute.
Qed.

(** X8.  For housing and a non-empty list without any school, the output
    has the no-school concern and not the school-nearby statement. *)
Theorem evaluate_location_housing_no_school lat0 lon0 objs :
  objs <> [] -> (forall o, o ∈ objs -> obj_type o <> school) ->
  match evaluate_location housing lat0 lon0 objs with
  | Ok (plus, minus) => msg_school_none ∈ minus /\ (msg_school_near ∉ plus)
  | Raise e =>
      exists o, o ∈ objs /\ haversine_km lat0 lon0 (lat o) (lon o) = Raise e
  end.
Proof.
  intros Hobjs Hno.
  destruct (evaluate_location housing lat0 lon0 objs)
    as [[plus minus]|e] eqn:He; [|by eapply evaluate_location_Raise].
  apply evaluate_location_Ok in He as (nh & ns & np & ni & _ & Hs & _ & _ & Hv).
  destruct ns as [m|].
  { apply nearest_Some in Hs as [(o & Ho & Ht & _) _]. by destruct (Hno o). }
  unfold verdict_of in Hv. destruct objs as [|o0 objs]; [done|].
  unfold category_rules, plus_append, minus_append in Hv. simpl in Hv.
  destruct (within np 1.2), (within ni 2.0); simpl in Hv;
    injection Hv as -> ->; split_and!;
    apply (bool_decide_unpack _); by vm_compute.
Qed.

(** X24.  For a park and a non-empty list of objects in which no industrial
    object is within 2 km, the output has no concern at all. *)
Theorem evaluate_location_park_no_concern lat0 lon0 objs :
  objs <> [] ->
  (forall o d, o ∈ objs -> obj_type o = industry ->
     haversine_km lat0 lon0 (lat o) (lon o) = Ok d ->
     (d <=? 2.0)%float = false) ->
  match evaluate_location park lat0 lon0 objs with
  | Ok (plus, minus) => minus = []
  | Raise e =>
      exists o, o ∈ objs /\ haversine_km lat0 lon0 (lat o) (lon o) = Raise e
  end.
Proof.
  intros Hobjs Hfar.
  destruct (evaluate_location park lat0 lon0 objs)
    as [[plus minus]|e] eqn:He; [|by eapply evaluate_location_Raise].
  apply evaluate_location_Ok in He as (nh & ns & np & ni & _ & _ & _ & Hi & Hv).
  assert (within ni 2.0 = false) as Hni.
  { destruct ni as [m|]; [|done]. simpl.
    apply nearest_Some in Hi as [(o & Ho & Ht & Hm) _]. by eapply Hfar. }
  unfold verdict_of in Hv. destruct objs as [|o0 objs]; [done|].
  unfold category_rules, plus_append, minus_append in Hv. simpl in Hv.
  rewrite Hni in Hv.
  by destruct (within nh 1.5); simpl in Hv; injection Hv as _ <-.
Qed.
End evaluation_more.

(** ** Perimeter analyzer, further *)

Lemma count_types_lookup_exact near t :
  count_types near !! t =
  match length (filter (fun x : CityObject * float => obj_type x.1 = t) near)
  with
  | 0 => None
  | S n => Some (S n)
  end.
Proof.
  unfold count_types.
  enough (forall c : gmap string nat,
    fold_left
      (fun (c : gmap string nat) (x : CityObject * float) =>
         <[obj_type x.1 := default 0 (c !! obj_type x.1) + 1]> c) near c !! t
    = match
        length (filter (fun x : CityObject * float => obj_type x.1 = t) near)
      with
      | 0 => c !! t
      | S n => Some (default 0 (c !! t) + S n)
      end) as H by (by rewrite H).
  induction near as [|x near IH]; intros c; simpl; [done|].
  rewrite IH, filter_cons. destruct (decide (obj_type x.1 = t)) as [->|Hne].
  - rewrite lookup_insert_eq. simpl.
    destruct (length _); simpl; f_equal; lia.
  - by rewrite lookup_insert_ne.
Qed.

Lemma py_sum_zeros (l : list float) :
  Forall (fun z => (z =? 0)%float = true) l -> py_sum l = 0%float.
Proof.
  unfold py_sum. induction 1 as [|z l Hz _ IH]; simpl; [done|].
  enough ((0 + z)%float = 0%float) as -> by done.
  apply Prim2SF_inj. rewrite add_spec.
  rewrite FloatAxioms.eqb_spec in Hz. revert Hz.
  change (Prim2SF 0) with (S754_zero false).
  by destruct (Prim2SF z) as [[]|[]| |[] m e].
Qed.

Lemma float_mul_zero_r x :
  is_finite x = true -> (x * 0 =? 0)%float = true.
Proof.
  intros Hx%float_is_finite_SF. rewrite FloatAxioms.eqb_spec, mul_spec.
  change (Prim2SF 0) with (S754_zero false).
  by destruct (Prim2SF x) as [[]|s| |[] m e].
Qed.

Section analysis_more.
Context `{M : Libm}.
Implicit Types (o : CityObject) (d radius : float).

Lemma analyze_perimeter_Ok lat0 lon0 objs radius r :
  analyze_perimeter lat0 lon0 objs radius = Ok r ->
  exists near,
    collect_around lat0 lon0 objs radius = Ok near /\
    around r = sorted_by_distance near /\
    counts r = count_types near /\
    parks r = default 0 (count_types near !! park) /\
    industry_emission r = py_sum (emission_items near) /\
    radius_km r = radius.
Proof.
  unfold analyze_perimeter.
  destruct (collect_around lat0 lon0 objs radius) as [near|]; simpl; [|done].
  intros [= <-]. by exists near.
Qed.

Lemma collect_around_nothing lat0 lon0 objs radius near :
  (forall o d, o ∈ objs ->
     haversine_km lat0 lon0 (lat o) (lon o) = Ok d ->
     (d <=? radius)%float = false) ->
  collect_around lat0 lon0 objs radius = Ok near -> near = [].
Proof.
  intros Hout Hc. destruct near as [|[o d] near]; [done|].
  assert ((o, d) ∈ (o, d) :: near) as Hin by left.
  apply (collect_around_elem _ _ _ _ _ _ _ Hc) in Hin as (Ho & Hd & Hle).
  by rewrite (Hout o d Ho Hd) in Hle.
Qed.

(** X9.  When no object is within the radius (in particular with an empty
    registry, or a NaN radius), the analysis has an empty list, no counts
    and zero for every aggregate, the school gap included. *)
Theorem analyze_perimeter_nothing_in_range lat0 lon0 objs radius :
  (forall o d, o ∈ objs ->
     haversine_km lat0 lon0 (lat o) (lon o) = Ok d ->
     (d <=? radius)%float = false) ->
  match analyze_perimeter lat0 lon0 objs radius with
  | Ok r =>
      r = {| around := []; counts := ∅; residents := 0; school_capacity := 0;
             school_gap := 0; industry_emission := 0; parks := 0;
             radius_km := radius |}
  | Raise e =>
      exists o, o ∈ objs /\ haversine_km lat0 lon0 (lat o) (lon o) = Raise e
  end.
Proof.
  intros Hout.
  destruct (analyze_perimeter lat0 lon0 objs radius) as [r|e] eqn:Hr;
    [|by eapply analyze_perimeter_Raise].
  unfold analyze_perimeter in Hr.
  destruct (collect_around lat0 lon0 objs radius) as [near|] eqn:Hc;
    simpl in Hr; [|done].
  apply (collect_around_nothing _ _ _ _ _ Hout) in Hc as ->.
  by injection Hr as <-.
Qed.

(** X10.  [counts] maps each category to the number of objects of that
    category in the [around] list and has no entry for a category without
    such an object; [parks] is the number of parks in the list. *)
Theorem analyze_perimeter_counts lat0 lon0 objs radius :
  match analyze_perimeter lat0 lon0 objs radius with
  | Ok r =>
      let n t :=
        length
          (filter (fun x : CityObject * float => obj_type x.1 = t) (around r))
      in
      (forall t, counts r !! t = if decide (n t = 0) then None else Some (n t))
      /\ parks r = n park
  | Raise e =>
      exists o, o ∈ objs /\ haversine_km lat0 lon0 (lat o) (lon o) = Raise e
  end.
Proof.
  destruct (analyze_perimeter lat0 lon0 objs radius) as [r|e] eqn:Hr;
    [|by eapply analyze_perimeter_Raise].
  apply analyze_perimeter_Ok in Hr as (near & _ & Ha & Hc & Hp & _).
  assert (forall t,
    length (filter (fun x : CityObject * float => obj_type x.1 = t) (around r))
    = length (filter (fun x : CityObject * float => obj_type x.1 = t) near))
    as Hlen.
  { intros t. apply Permutation_length.
    by rewrite Ha, sorted_by_distance_Permutation. }
  simpl. split.
  - intros t. rewrite Hc, count_types_lookup_exact, Hlen.
    by destruct (length _).
  - rewrite Hp, count_types_lookup_exact, Hlen. by destruct (length _).
Qed.

Lemma collect_around_radius lat0 lon0 objs radius1 radius2 :
  match collect_around lat0 lon0 objs radius1,
        collect_around lat0 lon0 objs radius2 with
  | Ok near1, Ok near2 =>
      (radius1 <=? radius2)%float = true -> near1 ⊆ near2
  | Raise e1, Raise e2 => e1 = e2
  | _, _ => False
  end.
Proof.
  induction objs as [|o objs IH]; simpl; [done|].
  destruct (haversine_km lat0 lon0 (lat o) (lon o)) as [d|e]; simpl; [|done].
  destruct (collect_around lat0 lon0 objs radius1) as [near1|e1],
    (collect_around lat0 lon0 objs radius2) as [near2|e2]; simpl; try done.
  intros Hle. specialize (IH Hle).
  destruct (d <=? radius1)%float eqn:H1.
  - rewrite (float_leb_trans _ _ _ H1 Hle). set_solver.
  - destruct (d <=? radius2)%float; set_solver.
Qed.

(** X11.  A larger radius keeps every pair of the [around] list of a
    smaller one; whether the analysis raises, and what, does not depend on
    the radius. *)
Theorem analyze_perimeter_radius_mono lat0 lon0 objs radius1 radius2 :
  (radius1 <=? radius2)%float = true ->
  match analyze_perimeter lat0 lon0 objs radius1,
        analyze_perimeter lat0 lon0 objs radius2 with
  | Ok r1, Ok r2 => around r1 ⊆ around r2
  | Raise e1, Raise e2 => e1 = e2
  | _, _ => False
  end.
Proof.
  intros Hle. unfold analyze_perimeter.
  pose proof (collect_around_radius lat0 lon0 objs radius1 radius2) as H.
  destruct (collect_around lat0 lon0 objs radius1) as [near1|e1],
    (collect_around lat0 lon0 objs radius2) as [near2|e2]; simpl; try done.
  intros x. rewrite !sorted_by_distance_Permutation. by apply H.
Qed.

(** X12.  If every industrial object has a filter efficiency of 1.0 and a
    finite emission, the aggregate industrial emission is 0, whatever the
    emissions are. *)
Theorem analyze_perimeter_filtered_emission lat0 lon0 objs radius :
  (forall o, o ∈ objs -> obj_type o = industry ->
     param o "filters_eff" = 1%float /\
     is_finite (param o "emission") = true) ->
  match analyze_perimeter lat0 lon0 objs radius with
  | Ok r => industry_emission r = 0%float
  | Raise e =>
      exists o, o ∈ objs /\ haversine_km lat0 lon0 (lat o) (lon o) = Raise e
  end.
Proof.
  intros Hind.
  destruct (analyze_perimeter lat0 lon0 objs radius) as [r|e] eqn:Hr;
    [|by eapply analyze_perimeter_Raise].
  apply analyze_perimeter_Ok in Hr as (near & Hc & _ & _ & _ & -> & _).
  apply py_sum_zeros, Forall_forall. unfold emission_items.
  intros z ([o d] & -> & [Ht Hin]%list_elem_of_filter)%list_elem_of_fmap.
  simpl in *.
  apply (collect_around_elem _ _ _ _ _ _ _ Hc) in Hin as (Ho & _ & _).
  destruct (Hind o Ho Ht) as [-> Hfin].
  by apply float_mul_zero_r.
Qed.

(** An object is within every non-negative radius of its own coordinate. *)
Lemma analyze_perimeter_center `{!LibmSpec M} objs radius o :
  o ∈ objs -> finite_coord (lat o) (lon o) = true ->
  (0 <=? radius)%float = true ->
  match analyze_perimeter (lat o) (lon o) objs radius with
  | Ok r =>
      (o, 0%float) ∈ around r /\ 1 <= default 0 (counts r !! obj_type o)
  | Raise e =>
      exists o', o' ∈ objs /\
        haversine_km (lat o) (lon o) (lat o') (lon o') = Raise e
  end.
Proof.
  intros Ho Hfin Hrad.
  destruct (analyze_perimeter (lat o) (lon o) objs radius) as [r|e] eqn:Hr;
    [|by eapply analyze_perimeter_Raise].
  apply analyze_perimeter_Ok in Hr as (near & Hc & -> & -> & _).
  assert ((o, 0%float) ∈ near) as Hin.
  { apply (collect_around_elem _ _ _ _ _ _ _ Hc).
    split_and!; [done|by apply haversine_km_diag|done]. }
  split; [by rewrite sorted_by_distance_Permutation|].
  rewrite count_types_lookup.
  assert ((o, 0%float) ∈ filter
    (fun x : CityObject * float => obj_type x.1 = obj_type o) near) as Hf
    by (by apply list_elem_of_filter).
  destruct (filter _ near); [by apply elem_of_nil in Hf|simpl; lia].
Qed.
End analysis_more.

(** ** Registry, further *)

Lemma find_other_ids sid (l : list CityObject) :
  sid ∉ id <$> l ->
  find (fun o => bool_decide (Some (id o) = Some sid)) l = None.
Proof.
  induction l as [|o l IH]; simpl; [done|].
  rewrite not_elem_of_cons. intros [Ho Hl].
  rewrite bool_decide_eq_false_2 by congruence. by apply IH.
Qed.

Lemma find_app_other sid (l1 l2 : list CityObject) :
  sid ∉ id <$> l1 ->
  find (fun o => bool_decide (Some (id o) = Some sid)) (l1 ++ l2)
  = find (fun o => bool_decide (Some (id o) = Some sid)) l2.
Proof.
  induction l1 as [|o l IH]; simpl; [done|].
  rewrite not_elem_of_cons. intros [Ho Hl].
  rewrite bool_decide_eq_false_2 by congruence. by apply IH.
Qed.

Lemma get_selected_obj_add_object nid t lat0 lon0 st :
  nid ∉ id <$> objects st ->
  get_selected_obj (add_object nid t lat0 lon0 st)
  = Some {| id := nid; obj_type := t; lat := lat0; lon := lon0;
            params := default ∅ (DEFAULT_PARAMS !! t) |}.
Proof.
  intros Hfresh. unfold get_selected_obj. simpl.
  rewrite find_app_other by done.
  simpl. by rewrite bool_decide_eq_true_2.
Qed.

(** X13.  [add_object] appends the new object, with the default parameters
    of its category, after the existing ones; if its identifier is fresh,
    [get_selected_obj] then returns the new object. *)
Theorem add_object_selected nid t lat0 lon0 st :
  nid ∉ id <$> objects st ->
  let o := {| id := nid; obj_type := t; lat := lat0; lon := lon0;
              params := default ∅ (DEFAULT_PARAMS !! t) |} in
  objects (add_object nid t lat0 lon0 st) = objects st ++ [o] /\
  get_selected_obj (add_object nid t lat0 lon0 st) = Some o.
Proof.
  intros Hfresh. split; [done|]. by apply get_selected_obj_add_object.
Qed.

(** X14.  Adding an object (fresh, non-empty identifier) and deleting the
    selection restores the sequence of objects; the selection is then the
    first object, or unset if there is none, and not the earlier one. *)
Theorem delete_selected_add_object nid t lat0 lon0 st :
  nid <> EmptyString -> nid ∉ id <$> objects st ->
  delete_selected (add_object nid t lat0 lon0 st) =
  (true, with_registry st (objects st) (id <$> head (objects st))).
Proof.
  intros Hne Hfresh. unfold delete_selected. simpl.
  rewrite bool_decide_eq_false_2 by done.
  rewrite filter_app, filter_other_ids by done.
  rewrite filter_cons_False by (simpl; naive_solver).
  rewrite filter_nil, app_nil_r, length_app. simpl.
  rewrite bool_decide_eq_true_2 by lia.
  unfold with_registry. simpl. by destruct (objects st).
Qed.

(** The loop of [move_selected] rewrites the first object that carries the
    identifier and nothing else. *)
Lemma move_first_split sid lat0 lon0 objs :
  sid ∈ id <$> objs ->
  exists l1 o l2,
    objs = l1 ++ o :: l2 /\ id o = sid /\ (sid ∉ id <$> l1) /\
    move_first (Some sid) lat0 lon0 objs =
    Some (l1 ++ {| id := id o; obj_type := obj_type o; lat := lat0;
                   lon := lon0; params := params o |} :: l2).
Proof.
  induction objs as [|o objs IH]; simpl.
  - by intros ?%elem_of_nil.
  - intros Hin. case_bool_decide as Ho.
    + exists [], o, objs. split_and!; [done|congruence|apply not_elem_of_nil|done].
    + apply elem_of_cons in Hin as [->|Hin]; [done|].
      destruct (IH Hin) as (l1 & o' & l2 & -> & Hid & Hl1 & ->).
      exists (o :: l1), o', l2. split_and!; [done..| |done].
      rewrite fmap_cons, not_elem_of_cons. split; [congruence|done].
Qed.

(** X15.  When the selected identifier is a non-empty string carried by an
    object, [move_selected] gives the new coordinates to the first object
    with this identifier and changes nothing else: the other objects, the
    order, the identifier, category and parameters of the moved object and
    the selection stay; [get_selected_obj] then returns the moved object. *)
Theorem move_selected_moves st sid lat0 lon0 :
  selected_id st = Some sid -> sid <> EmptyString -> sid ∈ id <$> objects st ->
  exists l1 o l2,
    objects st = l1 ++ o :: l2 /\ id o = sid /\ (sid ∉ id <$> l1) /\
    let o' := {| id := id o; obj_type := obj_type o; lat := lat0;
                 lon := lon0; params := params o |} in
    move_selected lat0 lon0 st
      = (true, with_registry st (l1 ++ o' :: l2) (Some sid)) /\
    get_selected_obj (move_selected lat0 lon0 st).2 = Some o'.
Proof.
  intros Hs Hne Hin.
  destruct (move_first_split sid lat0 lon0 _ Hin)
    as (l1 & o & l2 & Hobjs & Hid & Hl1 & Hm).
  exists l1, o, l2. split_and!; [done..|]. simpl.
  unfold move_selected. rewrite Hs, Hm. simpl.
  rewrite bool_decide_eq_false_2 by done. split; [done|].
  unfold get_selected_obj. simpl. rewrite find_app_other by done.
  simpl. rewrite bool_decide_eq_true_2 by congruence. done.
Qed.

(** X16.  [delete_selected] returns true exactly when the selected
    identifier is a non-empty string carried by an object of the
    sequence. *)
Theorem delete_selected_true_iff st :
  (delete_selected st).1 = true <->
  exists sid,
    selected_id st = Some sid /\ sid <> EmptyString /\
    sid ∈ id <$> objects st.
Proof.
  unfold delete_selected. destruct (selected_id st) as [sid|] eqn:Hs; simpl.
  - case_bool_decide as Hne; simpl.
    + split; [done|]. intros (sid' & [= <-] & ? & _). done.
    + rewrite bool_decide_eq_true. split.
      * intros Hlt. exists sid. split_and!; [done..|].
        destruct (decide (sid ∈ id <$> objects st)) as [|Hnot]; [done|].
        rewrite filter_other_ids in Hlt by done. lia.
      * intros (sid' & [= <-] & _ & (o & -> & Ho)%list_elem_of_fmap).
        apply (length_filter_lt _ _ o); [done|]. naive_solver.
  - split; [done|]. by intros (sid & ? & _).
Qed.

(** X17.  [move_selected] returns true exactly when the selected identifier
    is a non-empty string carried by an object of the sequence. *)
Theorem move_selected_true_iff lat0 lon0 st :
  (move_selected lat0 lon0 st).1 = true <->
  exists sid,
    selected_id st = Some sid /\ sid <> EmptyString /\
    sid ∈ id <$> objects st.
Proof.
  unfold move_selected. destruct (selected_id st) as [sid|] eqn:Hs; simpl.
  - case_bool_decide as Hne; simpl.
    + split; [done|]. intros (sid' & [= <-] & ? & _). done.
    + destruct (move_first (Some sid) lat0 lon0 (objects st)) as [l|] eqn:Hm;
        simpl.
      * split; [|done]. intros _. exists sid. split_and!; [done..|].
        destruct (decide (sid ∈ id <$> objects st)) as [|Hnot]; [done|].
        exfalso. clear Hs. revert l Hm.
        induction (objects st) as [|o objs IH]; intros l; simpl; [done|].
        rewrite fmap_cons, not_elem_of_cons in Hnot. destruct Hnot as [Ho Hn].
        rewrite bool_decide_eq_false_2 by congruence.
        destruct (move_first (Some sid) lat0 lon0 objs) as [l'|]; simpl;
          [|done].
        intros _. by apply (IH Hn l').
      * split; [done|]. intros (sid' & [= <-] & _ & Hin).
        destruct (move_first_is_Some _ lat0 lon0 _ Hin) as [l Hl]. congruence.
  - split; [done|]. by intros (sid & ? & _).
Qed.

Lemma move_first_fields sid lat0 lon0 objs objs' :
  move_first sid lat0 lon0 objs = Some objs' ->
  obj_type <$> objs' = obj_type <$> objs /\ params <$> objs' = params <$> objs.
Proof.
  revert objs'. induction objs as [|o objs IH]; intros objs'; simpl; [done|].
  case_bool_decide.
  - by intros [= <-].
  - destruct (move_first sid lat0 lon0 objs) as [l|]; simpl; [|done].
    intros [= <-]. rewrite !fmap_cons. destruct (IH l eq_refl) as [-> ->].
    done.
Qed.

(** ** The page *)


(** X18.  [emoji_for_type] returns the pin exactly for the categories that
    are not in the palette. *)
Theorem emoji_for_type_pin t :
  emoji_for_type t = pin <-> t ∉ type <$> PALETTE.
Proof.
  split.
  - intros He Hin. revert He.
    repeat (apply elem_of_cons in Hin as [->|Hin]);
      [by vm_compute..|by apply elem_of_nil in Hin].
  - intros Hnot. unfold emoji_for_type, PALETTE, emoji_in.
    rewrite !bool_decide_eq_false_2; [done|intros <-; apply Hnot..];
      apply (bool_decide_unpack _); by vm_compute.
Qed.

Section page.
Context `{M : Libm}.


(** X20.  The perimeter analysis of the page, unlike the evaluation, takes
    the selected object into account: with finite coordinates it is in its
    own [around] list at distance 0 and is counted in its category. *)
Theorem panel_analysis_selected `{!LibmSpec M} st o :
  get_selected_obj st = Some o -> finite_coord (lat o) (lon o) = true ->
  match panel_analysis st with
  | Ok r =>
      (o, 0%float) ∈ around r /\ 1 <= default 0 (counts r !! obj_type o)
  | Raise e =>
      exists o', o' ∈ objects st /\
        haversine_km (lat o) (lon o) (lat o') (lon o') = Raise e
  end.
Proof.
  intros Hsel Hfin. unfold panel_analysis, analysis_base. rewrite Hsel. simpl.
  apply analyze_perimeter_center; [|done..].
  unfold get_selected_obj in Hsel. apply find_some in Hsel as [Hin _].
  by apply list_elem_of_In.
Qed.

(** X21.  A click outside add mode records the click and neither adds nor
    removes an object: the identifiers, categories and parameters of the
    objects and the selection stay as they are. *)
Theorem on_map_click_keeps_objects nid lat0 lon0 st :
  mode st <> mode_add ->
  let st' := on_map_click nid lat0 lon0 st in
  id <$> objects st' = id <$> objects st /\
  obj_type <$> objects st' = obj_type <$> objects st /\
  params <$> objects st' = params <$> objects st /\
  selected_id st' = selected_id st /\
  last_click st' = Some (lat0, lon0).
Proof.
  intros Hmode. unfold on_map_click. simpl.
  rewrite bool_decide_eq_false_2 by done.
  case_bool_decide; [|done].
  destruct (py_not (selected_id st)) eqn:Hnot; [done|].
  unfold move_selected. simpl. rewrite Hnot.
  destruct (move_first _ _ _ _) as [objs'|] eqn:Hm; simpl; [|done].
  pose proof (move_first_ids _ _ _ _ _ Hm).
  destruct (move_first_fields _ _ _ _ _ Hm). done.
Qed.

Lemma registry_inv_with_last_click st c :
  registry_inv st -> registry_inv (with_last_click st c).
Proof. done. Qed.

(** X22.  The invariant of the registry is kept by a click on the map in
    every mode (the identifier drawn being fresh and non-empty) and by a
    choice in the select box. *)
Theorem page_registry_inv st :
  registry_inv st ->
  (forall nid lat0 lon0,
     nid <> EmptyString -> nid ∉ id <$> objects st ->
     registry_inv (on_map_click nid lat0 lon0 st)) /\
  (forall chosen st',
     select_object chosen st = Some st' -> registry_inv st').
Proof.
  intros Hinv. split.
  - intros nid lat0 lon0 Hne Hfresh. unfold on_map_click.
    pose proof (registry_inv_with_last_click st (Some (lat0, lon0)) Hinv)
      as [Hids Hsel].
    set (st1 := with_last_click st (Some (lat0, lon0))) in *.
    case_bool_decide.
    { split; [by apply ids_inv_add_object|apply selection_inv_add_object]. }
    case_bool_decide; [|done].
    destruct (py_not (selected_id st1)); [done|].
    split; [by apply ids_inv_move_selected|by apply selection_inv_move_selected].
  - intros chosen st'. unfold select_object.
    destruct (objects st !! chosen) as [o|] eqn:Ho; simpl; [|done].
    intros [= <-]. destruct Hinv as [Hids _]. split; [done|].
    unfold selection_inv. simpl.
    by eapply list_elem_of_fmap_2, list_elem_of_lookup_2.
Qed.

Lemma list_find_id sid (objs : list CityObject) :
  sid ∈ id <$> objs ->
  exists i o,
    list_find (fun o => Some (id o) = Some sid) objs = Some (i, o) /\
    id o = sid.
Proof.
  intros (o & -> & Ho)%list_elem_of_fmap.
  destruct (list_find_elem_of (fun o' => Some (id o') = Some (id o)) objs o)
    as [[i o'] Hf]; [done..|].
  exists i, o'. split; [done|].
  apply list_find_Some in Hf as (_ & [= ->] & _). done.
Qed.

(** X23.  In a registry with at least one object, choosing the default
    index of the select box keeps the selection, and selects the first
    object when nothing was selected. *)
Theorem select_object_default st :
  registry_inv st -> objects st <> [] ->
  select_object (select_index st) st =
  Some (with_registry st (objects st)
          (match selected_id st with
           | Some sid => Some sid
           | None => id <$> head (objects st)
           end)).
Proof.
  intros Hinv Hobjs. unfold select_object, select_index.
  destruct (selected_id st) as [sid|] eqn:Hs.
  - rewrite (proj2 (py_not_false _) (selected_id_nonempty _ _ Hinv Hs)).
    destruct Hinv as [_ Hsel]. unfold selection_inv in Hsel.
    rewrite Hs in Hsel.
    destruct (list_find_id _ _ Hsel) as (i & o & Hf & Hid).
    rewrite Hf. simpl.
    apply list_find_Some in Hf as (Hi & _). rewrite Hi. simpl.
    by rewrite Hid.
  - simpl. destruct (objects st) as [|o objs]; [done|]. done.
Qed.
End page.

(** ** The further properties on the sample data *)

Lemma evaluate_location_unknown_category_witness :
  ("Аэропорт"%string ∉ type <$> PALETTE) /\ [sample_home] <> [] /\
  match
    evaluate_location (H := small_angle_libm) "Аэропорт" 49.9520 82.6310
      [sample_home]
  with
  | Ok v => v = ([msg_fallback], [])
  | Raise e =>
      exists o, o ∈ [sample_home] /\
        haversine_km (H := small_angle_libm) 49.9520 82.6310 (lat o) (lon o)
          = Raise e
  end.
Proof.
  assert ("Аэропорт"%string ∉ type <$> PALETTE) as Ht
    by (apply (bool_decide_unpack _); vm_compute; exact I).
  split; [exact Ht|]. split; [discriminate|].
  apply (evaluate_location_unknown_category (M := small_angle_libm));
    [exact Ht|discriminate].
Defined.

Lemma evaluate_location_bridge_witness :
  [sample_home] <> [] /\
  match
    evaluate_location (H := small_angle_libm) bridge 49.9520 82.6310
      [sample_home]
  with
  | Ok v => v = ([msg_bridge_plus], [msg_bridge_minus])
  | Raise e =>
      exists o, o ∈ [sample_home] /\
        haversine_km (H := small_angle_libm) 49.9520 82.6310 (lat o) (lon o)
          = Raise e
  end.
Proof.
  split; [discriminate|].
  apply (evaluate_location_bridge (M := small_angle_libm)). discriminate.
Defined.

Lemma evaluate_location_no_fallback_witness :
  park ∈ [park; industry; sport; bridge] /\
  match
    evaluate_location (H := small_angle_libm) park 49.9520 82.6310
      [sample_home]
  with
  | Ok (plus, minus) => msg_fallback ∉ plus
  | Raise e =>
      exists o, o ∈ [sample_home] /\
        haversine_km (H := small_angle_libm) 49.9520 82.6310 (lat o) (lon o)
          = Raise e
  end.
Proof.
  assert (park ∈ [park; industry; sport; bridge]) as Ht by left.
  split; [exact Ht|].
  apply (evaluate_location_no_fallback (M := small_angle_libm)). exact Ht.
Defined.

Lemma evaluate_location_ignores_other_types_witness :
  (obj_type sample_arena ∉ reference_types) /\
  [sample_home] ++ [] <> [] /\
  evaluate_location (H := small_angle_libm) school 49.9520 82.6310
    ([sample_home] ++ sample_arena :: [])
  = evaluate_location (H := small_angle_libm) school 49.9520 82.6310
      ([sample_home] ++ []).
Proof.
  assert (obj_type sample_arena ∉ reference_types) as Ht
    by (apply (bool_decide_unpack _); vm_compute; exact I).
  split; [exact Ht|]. split; [discriminate|].
  apply (evaluate_location_ignores_other_types (M := small_angle_libm));
    [exact Ht|discriminate].
Defined.

Lemma evaluate_location_housing_school_near_witness :
  sample_school ∈ [sample_school] /\ obj_type sample_school = school /\
  haversine_km (H := small_angle_libm) 49.9483 82.6285
    (lat sample_school) (lon sample_school) = Ok sample_distance /\
  (sample_distance <=? 1.5)%float = true /\
  match
    evaluate_location (H := small_angle_libm) housing 49.9483 82.6285
      [sample_school]
  with
  | Ok (plus, minus) =>
      msg_school_near ∈ plus /\
      (msg_school_none ∉ minus) /\ (msg_school_far ∉ minus)
  | Raise e =>
      exists o, o ∈ [sample_school] /\
        haversine_km (H := small_angle_libm) 49.9483 82.6285 (lat o) (lon o)
          = Raise e
  end.
Proof.
  assert (sample_school ∈ [sample_school]) as Hin by left.
  split; [exact Hin|]. split; [reflexivity|]. split; [reflexivity|].
  split; [reflexivity|].
  apply (evaluate_location_housing_school_near (M := small_angle_libm)
           49.9483 82.6285 [sample_school] sample_school sample_distance
           Hin eq_refl eq_refl eq_refl).
  intros o' d' ->%list_elem_of_singleton _ Hd'.
  vm_compute in Hd'. injection Hd' as <-. reflexivity.
Defined.

Lemma evaluate_location_housing_no_school_witness :
  [sample_home] <> [] /\
  (forall o, o ∈ [sample_home] -> obj_type o <> school) /\
  match
    evaluate_location (H := small_angle_libm) housing 49.9520 82.6310
      [sample_home]
  with
  | Ok (plus, minus) => msg_school_none ∈ minus /\ (msg_school_near ∉ plus)
  | Raise e =>
      exists o, o ∈ [sample_home] /\
        haversine_km (H := small_angle_libm) 49.9520 82.6310 (lat o) (lon o)
          = Raise e
  end.
Proof.
  assert (forall o, o ∈ [sample_home] -> obj_type o <> school) as Hno
    by (intros o ->%list_elem_of_singleton; discriminate).
  split; [discriminate|]. split; [exact Hno|].
  apply (evaluate_location_housing_no_school (M := small_angle_libm));
    [discriminate|exact Hno].
Defined.

Lemma analyze_perimeter_nothing_in_range_witness :
  (forall o d, o ∈ [sample_school] ->
     haversine_km (H := small_angle_libm) 49.9483 82.6285 (lat o) (lon o)
       = Ok d ->
     (d <=? 0.25)%float = false) /\
  match
    analyze_perimeter (H := small_angle_libm) 49.9483 82.6285
      [sample_school] 0.25
  with
  | Ok r =>
      r = {| around := []; counts := ∅; residents := 0; school_capacity := 0;
             school_gap := 0; industry_emission := 0; parks := 0;
             radius_km := 0.25 |}
  | Raise e =>
      exists o, o ∈ [sample_school] /\
        haversine_km (H := small_angle_libm) 49.9483 82.6285 (lat o) (lon o)
          = Raise e
  end.
Proof.
  assert (forall o d, o ∈ [sample_school] ->
     haversine_km (H := small_angle_libm) 49.9483 82.6285 (lat o) (lon o)
       = Ok d ->
     (d <=? 0.25)%float = false) as Hout.
  { intros o d ->%list_elem_of_singleton Hd.
    vm_compute in Hd. injection Hd as <-. reflexivity. }
  split; [exact Hout|].
  apply (analyze_perimeter_nothing_in_range (M := small_angle_libm)).
  exact Hout.
Defined.

Lemma analyze_perimeter_radius_mono_witness :
  (0.25 <=? 1.5)%float = true /\
  match
    analyze_perimeter (H := small_angle_libm) 49.9483 82.6285
      [sample_home; sample_school] 0.25,
    analyze_perimeter (H := small_angle_libm) 49.9483 82.6285
      [sample_home; sample_school] 1.5
  with
  | Ok r1, Ok r2 => around r1 ⊆ around r2
  | Raise e1, Raise e2 => e1 = e2
  | _, _ => False
  end.
Proof.
  split; [reflexivity|].
  apply (analyze_perimeter_radius_mono (M := small_angle_libm)). reflexivity.
Defined.

Lemma analyze_perimeter_filtered_emission_witness :
  (forall o, o ∈ [sample_home; sample_plant] -> obj_type o = industry ->
     param o "filters_eff" = 1%float /\
     is_finite (param o "emission") = true) /\
  match
    analyze_perimeter (H := small_angle_libm) 49.9483 82.6285
      [sample_home; sample_plant] 1.5
  with
  | Ok r => industry_emission r = 0%float
  | Raise e =>
      exists o, o ∈ [sample_home; sample_plant] /\
        haversine_km (H := small_angle_libm) 49.9483 82.6285 (lat o) (lon o)
          = Raise e
  end.
Proof.
  assert (forall o, o ∈ [sample_home; sample_plant] -> obj_type o = industry ->
     param o "filters_eff" = 1%float /\
     is_finite (param o "emission") = true) as Hind.
  { intros o [->|[->|[]%elem_of_nil]%elem_of_cons]%elem_of_cons Ht.
    - discriminate Ht.
    - split; reflexivity. }
  split; [exact Hind|].
  apply (analyze_perimeter_filtered_emission (M := small_angle_libm)).
  exact Hind.
Defined.

Lemma add_object_selected_witness :
  ("77c1d05e3a"%string ∉ id <$> objects sample_state) /\
  let o := {| id := "77c1d05e3a"; obj_type := park; lat := 49.9490;
              lon := 82.6290; params := default ∅ (DEFAULT_PARAMS !! park) |} in
  objects (add_object "77c1d05e3a" park 49.9490 82.6290 sample_state)
    = objects sample_state ++ [o] /\
  get_selected_obj (add_object "77c1d05e3a" park 49.9490 82.6290 sample_state)
    = Some o.
Proof.
  assert ("77c1d05e3a"%string ∉ id <$> objects sample_state) as Hfresh
    by (apply (bool_decide_unpack _); vm_compute; exact I).
  split; [exact Hfresh|]. apply add_object_selected. exact Hfresh.
Defined.

Lemma delete_selected_add_object_witness :
  "77c1d05e3a"%string <> EmptyString /\
  ("77c1d05e3a"%string ∉ id <$> objects sample_state) /\
  delete_selected (add_object "77c1d05e3a" park 49.9490 82.6290 sample_state)
  = (true,
     with_registry sample_state (objects sample_state)
       (id <$> head (objects sample_state))).
Proof.
  assert ("77c1d05e3a"%string ∉ id <$> objects sample_state) as Hfresh
    by (apply (bool_decide_unpack _); vm_compute; exact I).
  split; [discriminate|]. split; [exact Hfresh|].
  apply delete_selected_add_object; [discriminate|exact Hfresh].
Defined.

Lemma move_selected_moves_witness :
  selected_id sample_state = Some "b04e77a912"%string /\
  "b04e77a912"%string <> EmptyString /\
  "b04e77a912"%string ∈ id <$> objects sample_state /\
  exists l1 o l2,
    objects sample_state = l1 ++ o :: l2 /\ id o = "b04e77a912"%string /\
    ("b04e77a912"%string ∉ id <$> l1) /\
    let o' := {| id := id o; obj_type := obj_type o; lat := 49.9490;
                 lon := 82.6290; params := params o |} in
    move_selected 49.9490 82.6290 sample_state
      = (true, with_registry sample_state (l1 ++ o' :: l2)
                 (Some "b04e77a912"%string)) /\
    get_selected_obj (move_selected 49.9490 82.6290 sample_state).2 = Some o'.
Proof.
  assert ("b04e77a912"%string ∈ id <$> objects sample_state) as Hin
    by (right; left).
  split; [reflexivity|]. split; [discriminate|]. split; [exact Hin|].
  apply move_selected_moves; [reflexivity|discriminate|exact Hin].
Defined.


Lemma panel_analysis_selected_witness :
  get_selected_obj sample_state = Some sample_school /\
  finite_coord (lat sample_school) (lon sample_school) = true /\
  match panel_analysis (H := small_angle_libm) sample_state with
  | Ok r =>
      (sample_school, 0%float) ∈ around r /\
      1 <= default 0 (counts r !! obj_type sample_school)
  | Raise e =>
      exists o', o' ∈ objects sample_state /\
        haversine_km (H := small_angle_libm)
          (lat sample_school) (lon sample_school) (lat o') (lon o') = Raise e
  end.
Proof.
  split; [reflexivity|]. split; [reflexivity|].
  apply (panel_analysis_selected (M := small_angle_libm)
           (LibmSpec0 := small_angle_libm_spec)); reflexivity.
Defined.

Lemma on_map_click_keeps_objects_witness :
  mode sample_move_state <> mode_add /\
  let st' := on_map_click "77c1d05e3a" 49.9490 82.6290 sample_move_state in
  id <$> objects st' = id <$> objects sample_move_state /\
  obj_type <$> objects st' = obj_type <$> objects sample_move_state /\
  params <$> objects st' = params <$> objects sample_move_state /\
  selected_id st' = selected_id sample_move_state /\
  last_click st' = Some (49.9490, 82.6290)%float.
Proof.
  assert (mode sample_move_state <> mode_add) as Hmode by discriminate.
  split; [exact Hmode|]. apply on_map_click_keeps_objects. exact Hmode.
Defined.

Lemma page_registry_inv_witness :
  registry_inv sample_state /\
  (forall nid lat0 lon0,
     nid <> EmptyString -> nid ∉ id <$> objects sample_state ->
     registry_inv (on_map_click nid lat0 lon0 sample_state)) /\
  (forall chosen st',
     select_object chosen sample_state = Some st' -> registry_inv st').
Proof.
  split; [exact sample_state_inv|].
  apply page_registry_inv. exact sample_state_inv.
Defined.

Lemma select_object_default_witness :
  registry_inv sample_state /\ objects sample_state <> [] /\
  select_object (select_index sample_state) sample_state =
  Some (with_registry sample_state (objects sample_state)
          (match selected_id sample_state with
           | Some sid => Some sid
           | None => id <$> head (objects sample_state)
           end)).
Proof.
  split; [exact sample_state_inv|]. split; [discriminate|].
  apply select_object_default; [exact sample_state_inv|discriminate].
Defined.

Lemma evaluate_location_park_no_concern_witness :
  [sample_home; sample_school] <> [] /\
  (forall o d, o ∈ [sample_home; sample_school] -> obj_type o = industry ->
     haversine_km (H := small_angle_libm) 49.9490 82.6290 (lat o) (lon o)
       = Ok d ->
     (d <=? 2.0)%float = false) /\
  match
    evaluate_location (H := small_angle_libm) park 49.9490 82.6290
      [sample_home; sample_school]
  with
  | Ok (plus, minus) => minus = []
  | Raise e =>
      exists o, o ∈ [sample_home; sample_school] /\
        haversine_km (H := small_angle_libm) 49.9490 82.6290 (lat o) (lon o)
          = Raise e
  end.
Proof.
  assert (forall o d, o ∈ [sample_home; sample_school] ->
     obj_type o = industry ->
     haversine_km (H := small_angle_libm) 49.9490 82.6290 (lat o) (lon o)
       = Ok d ->
     (d <=? 2.0)%float = false) as Hfar.
  { intros o d [->|[->|[]%elem_of_nil]%elem_of_cons]%elem_of_cons Ht;
      discriminate Ht. }
  split; [discriminate|]. split; [exact Hfar|].
  apply (evaluate_location_park_no_concern (M := small_angle_libm));
    [discriminate|exact Hfar].
Defined.

(** ** Runs of the model

    The scenarios of the specification, computed with [small_angle_libm]. *)

(** One degree of latitude is about 111 km. *)
Example haversine_km_one_degree :
  haversine_km (H := small_angle_libm) 49 82 50 82
  = Ok 111.19492664455873%float.
Proof. vm_compute. reflexivity. Qed.

(** A housing object with no neighbour gets the first-point statement; once
    a school stands within 1.5 km it gets the school statement instead of a
    concern about schools. *)
Example evaluate_location_housing_alone :
  evaluate_location (H := small_angle_libm) housing 49.9483 82.6285 []
  = Ok ([msg_first_point], []).
Proof. reflexivity. Qed.

Example evaluate_location_housing_near_school :
  evaluate_location (H := small_angle_libm) housing 49.9483 82.6285
    [sample_school]
  = Ok (["Школа относительно рядом — лучше доступность."%string;
         "Достаточно далеко от промзоны — лучше по экологии."%string],
        ["Нет парка рядом — стоит добавить зелёную зону."%string]).
Proof. vm_compute. reflexivity. Qed.

(** 1500 residents and a school of 800 places within the radius: a gap of
    0.25 * 1500 - 800 = -425. *)
Example analyze_perimeter_sample :
  match
    analyze_perimeter (H := small_angle_libm) 49.9483 82.6285
      (objects sample_state) ANALYSIS_RADIUS_KM
  with
  | Ok r =>
      (residents r, school_capacity r, school_gap r, parks r) =
        (1500%float, 800%float, (-425)%float, 0) /\
      around r = [(sample_home, 0%float); (sample_school, sample_distance)]
  | Raise _ => False
  end.
Proof. vm_compute. split; reflexivity. Qed.

(** Deleting the selected school leaves the housing object, selected. *)
Example delete_selected_sample :
  (delete_selected sample_state).1 = true /\
  objects (delete_selected sample_state).2 = [sample_home] /\
  selected_id (delete_selected sample_state).2 = Some (id sample_home).
Proof. vm_compute. split_and!; reflexivity. Qed.
